(** * qless-py: the [Queue] client of [qless/queue.py]

    A shallow embedding of the Python class [Queue] and of the queue engine
    it talks to.  The class is a thin shim: every method reads the clock,
    builds an argument list and performs exactly one round trip to the
    engine.  The embedding keeps that shape: a method is a computation in a
    state-and-exception monad over a [World] holding the clock, the uuid
    generator, the engine's store and the log of what was sent. *)

From Stdlib Require Import ZArith String List Bool Lia.
From Stdlib Require Import Floats.PrimFloat Floats.FloatOps Floats.SpecFloat.
From stdpp Require Import gmap strings list pretty.

Local Open Scope Z_scope.
Set Warnings "-register-all".

(** ** Python values *)

(** The values that cross the client/engine boundary.  [VFloat] is a
    binary64 float, as returned by [time.time()].  [VJson v] is the [str]
    produced by [json.dumps(v)]: the codec is an external collaborator and
    its output is kept symbolic, so that [json.loads] inverts it. *)
Inductive value : Type :=
| VNone
| VBool (b : bool)
| VInt (z : Z)
| VFloat (f : float)
| VStr (s : string)
| VJson (v : value)
| VList (l : list value)
| VDict (kv : list (string * value)).

(** Python truth testing: [None], [False], zero of either numeric type, the
    empty string, list and dict are false; everything else is true (a NaN
    included, since [nan != 0]; the text of a JSON document is never
    empty). *)
Definition truthy (v : value) : bool :=
  match v with
  | VNone => false
  | VBool b => b
  | VInt z => negb (z =? 0)
  | VFloat f => negb (PrimFloat.eqb f PrimFloat.zero)
  | VStr s => negb (String.eqb s "")
  | VJson _ => true
  | VList l => match l with [] => false | _ :: _ => true end
  | VDict kv => match kv with [] => false | _ :: _ => true end
  end.

(** [a or b] where [b] has no effect. *)
Definition py_or (a b : value) : value := if truthy a then a else b.

(** [x == None] *)
Definition is_None (v : value) : bool :=
  match v with VNone => true | _ => false end.

(** Conversion of a Python [int] to a [float] (round to nearest even). *)
Definition float_of_Z (z : Z) : float :=
  SF2Prim (binary_normalize 53 1024 z 0 false).

Inductive exn : Type :=
| TypeError
| ValueError
| IndexError
| OverflowError.

Inductive result (A : Type) : Type :=
| Ok (a : A)
| Raise (e : exn).
Arguments Ok {A} a.
Arguments Raise {A} e.

(** [json.dumps] and [json.loads].  A plain [VStr] stands for text that
    is not a JSON document. *)
Definition json_dumps (v : value) : value := VJson v.

Definition json_loads (s : value) : result value :=
  match s with
  | VJson v => Ok v
  | VStr _ => Raise ValueError
  | _ => Raise TypeError
  end.

(** The conversion Python applies to an [int] where a [float] is needed:
    it raises [OverflowError] once the nearest float would be 2^1024,
    that is from 2^1024 - 2^970 up. *)
Definition float_of_int (z : Z) : result float :=
  if Z.abs z <? 2 ^ 1024 - 2 ^ 970
  then Ok (float_of_Z z)
  else Raise OverflowError.

(** [sum] over a list of replies, starting from [0]; the replies of
    [ZCARD] are integers. *)
Fixpoint py_sum (acc : Z) (l : list value) : result Z :=
  match l with
  | [] => Ok acc
  | VInt z :: l' => py_sum (acc + z) l'
  | VBool b :: l' => py_sum (acc + Z.b2z b) l'
  | _ :: _ => Raise TypeError
  end.

(** ** Job objects *)

(** Modelled from the spec: the class [Job] of [job.py], which is not among
    the sources.  The spec gives the serialised form of a job as
    a mapping with the fields [id], [data], [priority], [tags], [queue],
    [state], [worker], [expires], [retries], [failure]; a [Job] object is
    built from that mapping by keyword arguments and exposes [id] and
    [data] as attributes.  It defines no truth test of its own, so it is
    true like any plain object. *)
Record Job : Type := mkJob {
  job_id : value;
  job_data : value;
  job_kwargs : list (string * value)
}.

Fixpoint assoc (k : string) (kv : list (string * value)) : option value :=
  match kv with
  | [] => None
  | (k', v) :: kv' => if String.eqb k k' then Some v else assoc k kv'
  end.

(** [Job(client, **kwargs)] *)
Definition Job_init (kwargs : value) : result Job :=
  match kwargs with
  | VDict kv =>
      match assoc "id" kv, assoc "data" kv with
      | Some i, Some d => Ok (mkJob i d kv)
      | _, _ => Raise TypeError
      end
  | _ => Raise TypeError
  end.

(** What [pop] and [peek] can return: a plain value ([None]), one job, or
    a list of jobs. *)
Inductive obj : Type :=
| OVal (v : value)
| OJob (j : Job)
| OJobs (l : list Job).

Definition truthy_obj (o : obj) : bool :=
  match o with
  | OVal v => truthy v
  | OJob _ => true
  | OJobs l => match l with [] => false | _ :: _ => true end
  end.

Definition obj_or (a b : obj) : obj := if truthy_obj a then a else b.

(** ** The engine as seen from the client *)

Inductive script : Type :=
| SPut | SPop | SPeek | SFail | SHeartbeat | SComplete | SStats.

(** Commands queued on a redis pipeline. *)
Inductive command : Type :=
| ZCARD (key : string).

(** One round trip to the engine. *)
Inductive request : Type :=
| Eval (f : script) (keys args : list value)
| Exec (cmds : list command).

(** [self.client]: the scripts registered on the client object and the
    redis connection behind it, acting on the engine's store [S].  A
    script call and the [execute] of a (transactional) pipeline are each
    served by the engine in one piece. *)
Class Client (S : Type) : Type := {
  run_script : script -> list value -> list value -> S -> value * S;
  run_pipeline : list command -> S -> list value * S
}.

(** ** The world a method runs in *)

Record World (S : Type) : Type := mkWorld {
  clock : nat -> float;     (* the successive readings of time.time() *)
  ticks : nat;              (* how many readings were taken *)
  uuids : nat -> string;    (* the successive values of uuid.uuid1().hex *)
  drawn : nat;              (* how many were drawn *)
  others : nat -> S -> S;   (* what the other producers and workers do to
                               the store ahead of each round trip *)
  trips : nat;              (* how many round trips were made *)
  store : S;                (* the engine's state *)
  sent : list request       (* every request sent, oldest first *)
}.
Arguments mkWorld {S}.
Arguments clock {S}.
Arguments ticks {S}.
Arguments uuids {S}.
Arguments drawn {S}.
Arguments others {S}.
Arguments trips {S}.
Arguments store {S}.
Arguments sent {S}.

Definition M (S A : Type) : Type := World S -> result A * World S.

Definition ret {S A} (a : A) : M S A := fun w => (Ok a, w).

Definition bind {S A B} (m : M S A) (k : A -> M S B) : M S B :=
  fun w =>
    match m w with
    | (Ok a, w') => k a w'
    | (Raise e, w') => (Raise e, w')
    end.

Definition lift {S A} (r : result A) : M S A := fun w => (r, w).

Declare Scope py_scope.
Delimit Scope py_scope with py.
Notation "'let*' x ':=' c 'in' k" := (bind c (fun x => k))
  (at level 10, x name, c at level 100, k at level 200) : py_scope.
Local Open Scope py_scope.

(** [time.time()] *)
Definition time_time {S} : M S float :=
  fun w =>
    (Ok (clock w (ticks w)),
     mkWorld (clock w) (Datatypes.S (ticks w)) (uuids w) (drawn w)
             (others w) (trips w) (store w) (sent w)).

(** [uuid.uuid1().hex] *)
Definition uuid1_hex {S} : M S string :=
  fun w =>
    (Ok (uuids w (drawn w)),
     mkWorld (clock w) (ticks w) (uuids w) (Datatypes.S (drawn w))
             (others w) (trips w) (store w) (sent w)).

(** The store as the engine finds it at the next round trip. *)
Definition arriving {S} (w : World S) : S := others w (trips w) (store w).

Definition call {S} `{Client S} (f : script) (keys args : list value)
  : M S value :=
  fun w =>
    let '(r, s') := run_script f keys args (arriving w) in
    (Ok r,
     mkWorld (clock w) (ticks w) (uuids w) (drawn w)
             (others w) (Datatypes.S (trips w)) s'
             (sent w ++ [Eval f keys args])).

(** [p.execute()] on a pipeline holding [cmds]. *)
Definition execute {S} `{Client S} (cmds : list command)
  : M S (list value) :=
  fun w =>
    let '(rs, s') := run_pipeline cmds (arriving w) in
    (Ok rs,
     mkWorld (clock w) (ticks w) (uuids w) (drawn w)
             (others w) (Datatypes.S (trips w)) s'
             (sent w ++ [Exec cmds])).

Definition _put {S} `{Client S} := call (S:=S) SPut.
Definition _pop {S} `{Client S} := call (S:=S) SPop.
Definition _peek {S} `{Client S} := call (S:=S) SPeek.
Definition _fail {S} `{Client S} := call (S:=S) SFail.
Definition _heartbeat {S} `{Client S} := call (S:=S) SHeartbeat.
Definition _complete {S} `{Client S} := call (S:=S) SComplete.
Definition _stats {S} `{Client S} := call (S:=S) SStats.

(** ** The class [Queue] *)

Module Queue.

Record t : Type := mk {
  name : string;
  worker : string;
  _hb : Z
}.

(** [Queue(name, client, worker)]; the client object is the [Client]
    instance in scope. *)
Definition __init__ (name worker : string) : t := mk name worker 60.

(** [[Job(self.client, **json.loads(j)) for j in reply]] *)
Fixpoint jobs_of_items (items : list value) : result (list Job) :=
  match items with
  | [] => Ok []
  | j :: rest =>
      match json_loads j with
      | Raise e => Raise e
      | Ok kwargs =>
          match Job_init kwargs with
          | Raise e => Raise e
          | Ok job =>
              match jobs_of_items rest with
              | Raise e => Raise e
              | Ok jobs => Ok (job :: jobs)
              end
          end
      end
  end.

(** Whether the JSON text of [v] starts with a digit: the text of an
    integer or of a finite float that is not negative. *)
Definition starts_with_digit (v : value) : bool :=
  match v with
  | VInt z => 0 <=? z
  | VFloat f => PrimFloat.is_finite f && negb (PrimFloat.get_sign f)
  | _ => false
  end.

(** One character as a string; a digit is the JSON text of its number. *)
Definition char_value (c : Ascii.ascii) : value :=
  let n := Ascii.nat_of_ascii c in
  if (48 <=? n)%nat && (n <=? 57)%nat
  then json_dumps (VInt (Z.of_nat n - 48))
  else VStr (String c EmptyString).

(** What the [for] of the comprehension iterates over: the items of a
    list, the characters of a string, the keys of a dict.  The characters
    of a JSON text are not kept; the comprehension stops at the first of
    them with the exception it gives rise to there: a digit decodes to a
    number, which [Job] cannot take as keyword arguments ([TypeError]),
    and no other first character of a JSON text decodes on its own
    ([ValueError]). *)
Definition py_iter (reply : value) : result (list value) :=
  match reply with
  | VList items => Ok items
  | VStr s => Ok (map char_value (list_ascii_of_string s))
  | VDict kv => Ok (map (fun e => VStr e.1) kv)
  | VJson v =>
      if starts_with_digit v then Raise TypeError else Raise ValueError
  | VNone | VBool _ | VInt _ | VFloat _ => Raise TypeError
  end.

Definition jobs_of (reply : value) : result (list Job) :=
  match py_iter reply with
  | Ok items => jobs_of_items items
  | Raise e => Raise e
  end.

(** [(len(results) and results[0]) or None]: the index is only taken when
    the length is true. *)
Definition first_or_None (results : list Job) : result obj :=
  let n := OVal (VInt (Z.of_nat (length results))) in
  match (if truthy_obj n
         then match results with
              | j :: _ => Ok (OJob j)
              | [] => Raise IndexError
              end
         else Ok n) with
  | Ok x => Ok (obj_or x (OVal VNone))
  | Raise e => Raise e
  end.

Section Methods.

Context {S : Type} `{Client S}.

(** The builtin [float] on a [str] that is not the output of
    [json.dumps]. *)
Variable float_of_str : string -> option float.

(** [float(x)]: an [int] too large for a float raises [OverflowError],
    while the text of one is parsed to the infinity of its sign. *)
Definition py_float (x : value) : result float :=
  match x with
  | VFloat f => Ok f
  | VInt z => float_of_int z
  | VBool b => Ok (float_of_Z (Z.b2z b))
  | VStr s =>
      match float_of_str s with
      | Some f => Ok f
      | None => Raise ValueError
      end
  | VJson (VInt z) => Ok (float_of_Z z)
  | VJson (VFloat f) => Ok f
  | VJson _ => Raise ValueError
  | VNone | VList _ | VDict _ => Raise TypeError
  end.

(** [def put(self, data, priority=None, tags=None, delay=None,
    retries=None)] *)
Definition put (self : t) (data priority tags delay retries : value)
  : M S value :=
  let* id := uuid1_hex in
  let* now := time_time in
  _put [VStr (name self)]
       [VStr id;
        json_dumps data;
        VFloat now;
        py_or priority (VInt 0);
        json_dumps (py_or tags (VList []));
        py_or delay (VInt 0);
        py_or retries (VInt 5)].

(** [def pop(self, count=None)]: the arguments of [_pop] are evaluated
    left to right, so the clock is read twice, first for the current time
    and then for the expiry. *)
Definition pop (self : t) (count : value) : M S obj :=
  let* t1 := time_time in
  let* t2 := time_time in
  let* reply := _pop [VStr (name self)]
                [VStr (worker self);
                 py_or count (VInt 1);
                 VFloat t1;
                 VFloat (PrimFloat.add t2 (float_of_Z (_hb self)))] in
  let* results := lift (jobs_of reply) in
  if is_None count
  then lift (first_or_None results)
  else ret (OJobs results).

(** [def peek(self, count=None)] *)
Definition peek (self : t) (count : value) : M S obj :=
  let* t1 := time_time in
  let* reply := _peek [VStr (name self)] [py_or count (VInt 1); VFloat t1] in
  let* results := lift (jobs_of reply) in
  if is_None count
  then lift (first_or_None results)
  else ret (OJobs results).

(** [def fail(self, job, t, message)] *)
Definition fail (self : t) (job : Job) (t message : value) : M S value :=
  let* now := time_time in
  let* reply := _fail []
                 [job_id job; VStr (worker self); t; message; VFloat now;
                  json_dumps (job_data job)] in
  ret (py_or reply (VBool false)).

(** [def heartbeat(self, job)] *)
Definition heartbeat (self : t) (job : Job) : M S float :=
  let* now := time_time in
  let* reply := _heartbeat []
                      [job_id job; VStr (worker self);
                       VFloat (PrimFloat.add now (float_of_Z (_hb self)));
                       json_dumps (job_data job)] in
  lift (py_float (py_or reply (VInt 0))).

(** [def complete(self, job, next=None, delay=None)] *)
Definition complete (self : t) (job : Job) (next delay : value)
  : M S value :=
  if truthy next
  then
    let* now := time_time in
    let* reply := _complete []
                       [job_id job; VStr (worker self); VStr (name self);
                        VFloat now; json_dumps (job_data job);
                        next; py_or delay (VInt 0)] in
    ret (py_or reply (VBool false))
  else
    let* now := time_time in
    let* reply := _complete []
                       [job_id job; VStr (worker self); VStr (name self);
                        VFloat now; json_dumps (job_data job)] in
    ret (py_or reply (VBool false)).

(** [def stats(self, date=None)]: the clock is only read when [date] is
    false. *)
Definition stats (self : t) (date : value) : M S value :=
  let* d := (if truthy date then ret date
              else let* now := time_time in ret (VFloat now)) in
  let* reply := _stats [] [VStr (name self); d] in
  lift (json_loads reply).

(** [def __len__(self)]: three counts queued on one pipeline, executed
    together. *)
Definition __len__ (self : t) : M S value :=
  let p := [] in
  let p := p ++ [ZCARD ("ql:q:" ++ name self ++ "-locks")] in
  let p := p ++ [ZCARD ("ql:q:" ++ name self ++ "-work")] in
  let p := p ++ [ZCARD ("ql:q:" ++ name self ++ "-scheduled")] in
  let* replies := execute p in
  let* total := lift (py_sum 0 replies) in
  ret (VInt total).

End Methods.

End Queue.

(** ** The engine *)

Module Engine.

(** Modelled from the spec: the queue engine behind [self.client] (the
    scripts [_put], [_pop], [_peek], [_heartbeat], [_complete], [_fail] and
    the sorted sets [__len__] reads), which is not among the sources.  The
    model follows sections 3, 4 and 6 of the spec: the Job Record Store
    owns the jobs, and the waiting, scheduled and locks sets of a queue are
    ordered views over the jobs assigned to it.  The Statistics Aggregator
    is left out. *)

Record failure : Type := mkFailure {
  f_category : string;
  f_message : string;
  f_payload : value
}.

(** Modelled from the spec: the five states of a job.  The lease owner
    and lease expiry exist exactly while the job is leased, the ready-at
    time while it is scheduled, the failure record while it is failed. *)
Inductive jstate : Type :=
| Waiting
| Scheduled (ready : float)
| Leased (owner : string) (expires : float)
| Failed (f : failure)
| Completed.

(** Modelled from the spec: the Job of section 3 (its identity is the key
    under which the store holds it). *)
Record record : Type := mkRecord {
  r_data : value;
  r_priority : Z;
  r_tags : value;
  r_created : float;
  r_remaining : Z;
  r_queue : string;
  r_state : jstate
}.

Definition with_state (st : jstate) (r : record) : record :=
  mkRecord (r_data r) (r_priority r) (r_tags r) (r_created r)
           (r_remaining r) (r_queue r) st.

Definition with_data (d : value) (r : record) : record :=
  mkRecord d (r_priority r) (r_tags r) (r_created r)
           (r_remaining r) (r_queue r) (r_state r).

Definition with_queue (q : string) (r : record) : record :=
  mkRecord (r_data r) (r_priority r) (r_tags r) (r_created r)
           (r_remaining r) q (r_state r).

Definition with_remaining (n : Z) (r : record) : record :=
  mkRecord (r_data r) (r_priority r) (r_tags r) (r_created r)
           n (r_queue r) (r_state r).

(** Modelled from the spec: the Job Record Store. *)
Abbreviation t := (gmap string record).

Definition is_waiting (st : jstate) : bool :=
  match st with Waiting => true | _ => false end.
Definition is_scheduled (st : jstate) : bool :=
  match st with Scheduled _ => true | _ => false end.
Definition is_leased (st : jstate) : bool :=
  match st with Leased _ _ => true | _ => false end.

(** *** The ordered views of a queue *)

Fixpoint insert_by {A} (le : A -> A -> bool) (x : A) (l : list A) : list A :=
  match l with
  | [] => [x]
  | y :: l' => if le y x then y :: insert_by le x l' else x :: y :: l'
  end.

Definition sort_by {A} (le : A -> A -> bool) (l : list A) : list A :=
  foldr (insert_by le) [] l.

(** Modelled from the spec: waiting: by priority, then by creation time,
    ascending. *)
Definition sooner (a b : string * record) : bool :=
  (r_priority a.2 <? r_priority b.2)
  || ((r_priority a.2 =? r_priority b.2)
      && PrimFloat.leb (r_created a.2) (r_created b.2)).

Definition state_time (st : jstate) : float :=
  match st with
  | Scheduled ready => ready
  | Leased _ expires => expires
  | _ => PrimFloat.zero
  end.

(** Modelled from the spec: scheduled: by ready-at time; locks: by lease
    expiry. *)
Definition earlier (a b : string * record) : bool :=
  PrimFloat.leb (state_time (r_state a.2)) (state_time (r_state b.2)).

Definition member (q : string) (p : jstate -> bool) (e : string * record)
  : bool :=
  String.eqb (r_queue e.2) q && p (r_state e.2).

Definition waiting (q : string) (s : t) : list (string * record) :=
  sort_by sooner (List.filter (member q is_waiting) (map_to_list s)).

Definition scheduled (q : string) (s : t) : list (string * record) :=
  sort_by earlier (List.filter (member q is_scheduled) (map_to_list s)).

Definition locks (q : string) (s : t) : list (string * record) :=
  sort_by earlier (List.filter (member q is_leased) (map_to_list s)).

(** Modelled from the spec: [length()] *)
Definition length (q : string) (s : t) : Z :=
  Z.of_nat (List.length (locks q s))
  + Z.of_nat (List.length (waiting q s))
  + Z.of_nat (List.length (scheduled q s)).

(** Modelled from the spec: the Failure Ledger: the failed jobs of a
    category. *)
Definition ledger (category : string) (s : t) : list (string * record) :=
  List.filter
    (fun e => match r_state e.2 with
              | Failed f => String.eqb (f_category f) category
              | _ => false
              end)
    (map_to_list s).

(** *** The Job Record Store and the queue operations *)

Definition entry_state (now delay : float) : jstate :=
  if PrimFloat.ltb PrimFloat.zero delay
  then Scheduled (PrimFloat.add now delay)
  else Waiting.

(** Modelled from the spec: [Put]: create the job, or move the job that
    already has this id (its payload, priority and tags are replaced and its
    scheduling is reset; its creation time and retries left are kept). *)
Definition put (q id : string) (payload : value) (now : float)
    (priority : Z) (tags : value) (delay : float) (retries : Z) (s : t)
  : value * t :=
  let r :=
    match s !! id with
    | Some old =>
        mkRecord payload priority tags (r_created old) (r_remaining old)
                 q (entry_state now delay)
    | None =>
        mkRecord payload priority tags now retries q (entry_state now delay)
    end in
  (VStr id, <[id := r]> s).

(** Modelled from the spec: [reclaimExpired], on one job of the queue. *)
Definition reclaim (q : string) (now : float) (r : record) : record :=
  match r_state r with
  | Leased _ expires =>
      if String.eqb (r_queue r) q && PrimFloat.ltb expires now
      then
        if 0 <=? r_remaining r - 1
        then with_state Waiting (with_remaining (r_remaining r - 1) r)
        else with_state
               (Failed (mkFailure "retries exceeded" "" (r_data r))) r
      else r
  | _ => r
  end.

(** Modelled from the spec: [promoteDue], on one job of the queue. *)
Definition promote (q : string) (now : float) (r : record) : record :=
  match r_state r with
  | Scheduled ready =>
      if String.eqb (r_queue r) q && PrimFloat.leb ready now
      then with_state Waiting r
      else r
  | _ => r
  end.

(** Modelled from the spec: what the start of every pop and peek does to the
    store. *)
Definition refresh (q : string) (now : float) (s : t) : t :=
  promote q now <$> (reclaim q now <$> s).

Definition lease (w : string) (expiry : float) (r : record) : record :=
  with_state (Leased w expiry) r.

Definition state_name (st : jstate) : string :=
  match st with
  | Waiting => "waiting"
  | Scheduled _ => "scheduled"
  | Leased _ _ => "leased"
  | Failed _ => "failed"
  | Completed => "completed"
  end.

(** Modelled from the spec: the serialised form of a job: the fields of the
    mapping, and its JSON text. *)
Definition fields (e : string * record) : list (string * value) :=
  let r := e.2 in
  [("id"%string, VStr e.1);
   ("data"%string, r_data r);
   ("priority"%string, VInt (r_priority r));
   ("tags"%string, r_tags r);
   ("queue"%string, VStr (r_queue r));
   ("state"%string, VStr (state_name (r_state r)))]
  ++ match r_state r with
     | Leased w expires =>
         [("worker"%string, VStr w); ("expires"%string, VFloat expires)]
     | _ => []
     end
  ++ [("retries"%string, VInt (r_remaining r))]
  ++ match r_state r with
     | Failed f =>
         [("failure"%string,
           VDict [("category"%string, VStr (f_category f));
                  ("message"%string, VStr (f_message f));
                  ("data"%string, f_payload f)])]
     | _ => []
     end.

Definition serialise (e : string * record) : value :=
  json_dumps (VDict (fields e)).

(** Modelled from the spec: the [Job] object a client builds from the
    serialised form. *)
Definition received (e : string * record) : Job :=
  mkJob (VStr e.1) (r_data e.2) (fields e).

(** Modelled from the spec: the jobs a pop or peek asking for [n] selects at
    time [now]. *)
Definition available (q : string) (now : float) (s : t)
  : list (string * record) :=
  waiting q (refresh q now s).

Definition selected (q : string) (n : Z) (now : float) (s : t)
  : list (string * record) :=
  take (Z.to_nat n) (available q now s).

Definition chosen (ids : list string) (id : string) : bool :=
  existsb (String.eqb id) ids.

(** Modelled from the spec: [popN] *)
Definition pop (q w : string) (n : Z) (now expiry : float) (s : t)
  : value * t :=
  let sel := selected q n now s in
  let ids := map fst sel in
  (VList (map (fun e => serialise (e.1, lease w expiry e.2)) sel),
   map_imap
     (fun id r => Some (if chosen ids id then lease w expiry r else r))
     (refresh q now s)).

(** Modelled from the spec: [peekN] *)
Definition peek (q : string) (n : Z) (now : float) (s : t) : value * t :=
  (VList (map serialise (selected q n now s)), refresh q now s).

(** Modelled from the spec: [heartbeat]. The request of section 6 carries
    the new expiry and no current time: a lease counts until a pop or peek
    reclaims it. *)
Definition heartbeat (id w : string) (expiry : float)
    (payload : option value) (s : t) : value * t :=
  match s !! id with
  | Some r =>
      match r_state r with
      | Leased owner _ =>
          if String.eqb owner w
          then
            let r' := match payload with
                      | Some d => with_data d r
                      | None => r
                      end in
            (VFloat expiry, <[id := with_state (Leased owner expiry) r']> s)
          else (VInt 0, s)
      | _ => (VInt 0, s)
      end
  | None => (VInt 0, s)
  end.

(** Modelled from the spec: [complete] *)
Definition complete (id w q : string) (now : float) (payload : value)
    (next : option string) (delay : float) (s : t) : value * t :=
  match s !! id with
  | Some r =>
      match r_state r with
      | Leased owner _ =>
          if String.eqb owner w && String.eqb (r_queue r) q
          then
            match next with
            | Some q' =>
                (VBool true,
                 <[id := with_state (entry_state now delay)
                           (with_queue q' (with_data payload r))]> s)
            | None =>
                (VBool true,
                 <[id := with_state Completed (with_data payload r)]> s)
            end
          else (VBool false, s)
      | _ => (VBool false, s)
      end
  | None => (VBool false, s)
  end.

(** Modelled from the spec: [fail] *)
Definition fail (id w category message : string) (now : float)
    (payload : option value) (s : t) : value * t :=
  match s !! id with
  | Some r =>
      let r' := match payload with
                | Some d => with_data d r
                | None => r
                end in
      (VStr id,
       <[id := with_state
                 (Failed (mkFailure category message (r_data r'))) r']> s)
  | None => (VBool false, s)
  end.

(** Modelled from the spec: whether job [id] is leased by worker [w], and
    whether it is so on queue [q]. *)
Definition leased_by (id w : string) (s : t) : bool :=
  match s !! id with
  | Some r =>
      match r_state r with
      | Leased owner _ => String.eqb owner w
      | _ => false
      end
  | None => false
  end.

Definition leased_on (id w q : string) (s : t) : bool :=
  match s !! id with
  | Some r =>
      match r_state r with
      | Leased owner _ => String.eqb owner w && String.eqb (r_queue r) q
      | _ => false
      end
  | None => false
  end.

(** Modelled from the spec: one lease of a waiting job, granted until
    [times.1] and reclaimed at [times.2]: what a pop that selects the job
    and the start of a later pop or peek do to it. *)
Definition expire_once (q w : string) (r : record) (times : float * float)
  : record :=
  match r_state r with
  | Waiting => reclaim q times.2 (lease w times.1 r)
  | _ => r
  end.

Definition expire_all (q w : string) (times : list (float * float))
    (r : record) : record :=
  fold_left (expire_once q w) times r.

Definition retries_exceeded (r : record) : bool :=
  match r_state r with
  | Failed f => String.eqb (f_category f) "retries exceeded"
  | _ => false
  end.

(** *** The redis keys of a queue *)

(** Modelled from the spec: the sorted sets behind the three views, under
    the key names [__len__] reads them by. *)
Definition key_of (r : record) : option string :=
  match r_state r with
  | Leased _ _ => Some ("ql:q:" ++ r_queue r ++ "-locks")%string
  | Waiting => Some ("ql:q:" ++ r_queue r ++ "-work")%string
  | Scheduled _ => Some ("ql:q:" ++ r_queue r ++ "-scheduled")%string
  | Failed _ | Completed => None
  end.

Definition held_at (key : string) (e : string * record) : bool :=
  match key_of e.2 with
  | Some k => String.eqb k key
  | None => false
  end.

Definition zcard (key : string) (s : t) : Z :=
  Z.of_nat (List.length (List.filter (held_at key) (map_to_list s))).

(** *** The scripts *)

Definition as_float (v : value) : option float :=
  match v with
  | VFloat f => Some f
  | VInt z => Some (float_of_Z z)
  | _ => None
  end.

Definition as_int (v : value) : option Z :=
  match v with
  | VInt z => Some z
  | _ => None
  end.

(** Modelled from the spec: the requests of section 6, with their arguments
    decoded. *)
Inductive op : Type :=
| Put (q id : string) (payload : value) (now : float) (priority : Z)
      (tags : value) (delay : float) (retries : Z)
| Pop (q w : string) (n : Z) (now expiry : float)
| Peek (q : string) (n : Z) (now : float)
| Heartbeat (id w : string) (expiry : float) (payload : option value)
| Complete (id w q : string) (now : float) (payload : value)
           (next : option string) (delay : float)
| Fail (id w category message : string) (now : float)
       (payload : option value).

Definition decode (f : script) (keys args : list value) : option op :=
  match f, keys, args with
  | SPut, [VStr q], [VStr id; data; now; priority; tags; delay; retries] =>
      match as_float now, as_int priority, as_float delay, as_int retries with
      | Some now, Some priority, Some delay, Some retries =>
          Some (Put q id data now priority tags delay retries)
      | _, _, _, _ => None
      end
  | SPop, [VStr q], [VStr w; n; now; expiry] =>
      match as_int n, as_float now, as_float expiry with
      | Some n, Some now, Some expiry => Some (Pop q w n now expiry)
      | _, _, _ => None
      end
  | SPeek, [VStr q], [n; now] =>
      match as_int n, as_float now with
      | Some n, Some now => Some (Peek q n now)
      | _, _ => None
      end
  | SHeartbeat, [], [VStr id; VStr w; expiry] =>
      match as_float expiry with
      | Some expiry => Some (Heartbeat id w expiry None)
      | None => None
      end
  | SHeartbeat, [], [VStr id; VStr w; expiry; data] =>
      match as_float expiry with
      | Some expiry => Some (Heartbeat id w expiry (Some data))
      | None => None
      end
  | SComplete, [], [VStr id; VStr w; VStr q; now; data] =>
      match as_float now with
      | Some now => Some (Complete id w q now data None PrimFloat.zero)
      | None => None
      end
  | SComplete, [], [VStr id; VStr w; VStr q; now; data; VStr next; delay] =>
      match as_float now, as_float delay with
      | Some now, Some delay =>
          Some (Complete id w q now data (Some next) delay)
      | _, _ => None
      end
  | SFail, [], [VStr id; VStr w; VStr category; VStr message; now] =>
      match as_float now with
      | Some now => Some (Fail id w category message now None)
      | None => None
      end
  | SFail, [], [VStr id; VStr w; VStr category; VStr message; now; data] =>
      match as_float now with
      | Some now => Some (Fail id w category message now (Some data))
      | None => None
      end
  | _, _, _ => None
  end.

Definition apply (o : op) (s : t) : value * t :=
  match o with
  | Put q id payload now priority tags delay retries =>
      put q id payload now priority tags delay retries s
  | Pop q w n now expiry => pop q w n now expiry s
  | Peek q n now => peek q n now s
  | Heartbeat id w expiry payload => heartbeat id w expiry payload s
  | Complete id w q now payload next delay =>
      complete id w q now payload next delay s
  | Fail id w category message now payload =>
      fail id w category message now payload s
  end.

(** Modelled from the spec: a request that does not have the shape of
    section 6 is answered [False] and changes nothing. *)
Definition run (f : script) (keys args : list value) (s : t) : value * t :=
  match decode f keys args with
  | Some o => apply o s
  | None => (VBool false, s)
  end.

(** Modelled from the spec: the store after a sequence of requests. *)
Definition apply_all (ops : list op) (s : t) : t :=
  fold_left (fun s o => (apply o s).2) ops s.

(** Modelled from the spec: a [Put] whose retry budget is not negative. *)
Definition budget_ok (o : op) : bool :=
  match o with
  | Put _ _ _ _ _ _ _ retries => 0 <=? retries
  | _ => true
  end.

Definition run_command (s : t) (c : command) : value :=
  match c with
  | ZCARD key => VInt (zcard key s)
  end.

(** Modelled from the spec: a transactional pipeline: every queued command
    is served from the same store. *)
Definition exec (cmds : list command) (s : t) : list value * t :=
  (map (run_command s) cmds, s).

#[export] Instance client : Client t := {
  run_script := run;
  run_pipeline := exec
}.

End Engine.

#[global] Existing Instance Engine.client.

(** * The vocabulary of the statements *)

Section Vocabulary.

Context {S : Type} `{Client S}.

(** The world after one script call: two clock fields may have moved
    before it. *)
Definition after_call (w : World S) (ticks' drawn' : nat)
    (f : script) (keys args : list value) : World S :=
  mkWorld (clock w) ticks' (uuids w) drawn' (others w)
          (Datatypes.S (trips w))
          (run_script f keys args (arriving w)).2
          (sent w ++ [Eval f keys args]).

Definition put_args (self : Queue.t) (data priority tags delay retries : value)
    (w : World S) : list value :=
  [VStr (uuids w (drawn w));
   json_dumps data;
   VFloat (clock w (ticks w));
   py_or priority (VInt 0);
   json_dumps (py_or tags (VList []));
   py_or delay (VInt 0);
   py_or retries (VInt 5)].

Definition pop_args (self : Queue.t) (count : value) (w : World S)
  : list value :=
  [VStr (Queue.worker self);
   py_or count (VInt 1);
   VFloat (clock w (ticks w));
   VFloat (PrimFloat.add (clock w (Datatypes.S (ticks w)))
                         (float_of_Z (Queue._hb self)))].

Definition peek_args (count : value) (w : World S) : list value :=
  [py_or count (VInt 1); VFloat (clock w (ticks w))].

Definition heartbeat_args (self : Queue.t) (job : Job) (w : World S)
  : list value :=
  [job_id job;
   VStr (Queue.worker self);
   VFloat (PrimFloat.add (clock w (ticks w)) (float_of_Z (Queue._hb self)));
   json_dumps (job_data job)].

Definition fail_args (self : Queue.t) (job : Job) (t message : value)
    (w : World S) : list value :=
  [job_id job; VStr (Queue.worker self); t; message;
   VFloat (clock w (ticks w)); json_dumps (job_data job)].

Definition complete_args (self : Queue.t) (job : Job) (next delay : value)
    (w : World S) : list value :=
  [job_id job; VStr (Queue.worker self); VStr (Queue.name self);
   VFloat (clock w (ticks w)); json_dumps (job_data job)]
  ++ (if truthy next then [next; py_or delay (VInt 0)] else []).

Definition len_cmds (self : Queue.t) : list command :=
  [ZCARD ("ql:q:" ++ Queue.name self ++ "-locks");
   ZCARD ("ql:q:" ++ Queue.name self ++ "-work");
   ZCARD ("ql:q:" ++ Queue.name self ++ "-scheduled")].

End Vocabulary.

(** The count the engine is asked for. *)
Definition asked (count : value) : Z :=
  match py_or count (VInt 1) with
  | VInt k => k
  | _ => 0
  end.

(** The jobs a [pop] in world [w] leases, as the store holds them
    afterwards. *)
Definition popped (self : Queue.t) (count : value) (w : World Engine.t)
  : list (string * Engine.record) :=
  map (fun e =>
         (e.1,
          Engine.lease (Queue.worker self)
            (PrimFloat.add (clock w (Datatypes.S (ticks w)))
                           (float_of_Z (Queue._hb self)))
            e.2))
      (Engine.selected (Queue.name self) (asked count)
                       (clock w (ticks w)) (arriving w)).

(** No job has fewer than zero retries left. *)
Definition nonneg (s : Engine.t) : Prop :=
  map_Forall (fun _ r => 0 <= Engine.r_remaining r) s.

(** ** A run of the whole: one job with one retry *)

Definition demo_clock (n : nat) : float := float_of_Z (100 * Z.of_nat n).

(** An empty engine, a clock that advances by 100 seconds from one
    reading to the next, and no other client. *)
Definition demo_world : World Engine.t :=
  mkWorld demo_clock 0 pretty 0 (fun _ s => s) 0 ∅ [].

Definition demo_queue : Queue.t := Queue.__init__ "testing" "worker-1".

Definition demo_data : value := VDict [("x"%string, VInt 1)].

Definition demo_job : Job :=
  mkJob (VStr "0") (json_dumps demo_data) [].

Definition no_float : string -> option float := fun _ => None.

(** [put(data, priority=-1, retries=1)] at time 0. *)
Definition demo_put : World Engine.t :=
  (Queue.put demo_queue demo_data (VInt (-1)) VNone VNone (VInt 1)
             demo_world).2.

(** [pop(1)] at time 100, the lease running until 260. *)
Definition demo_leased : World Engine.t :=
  (Queue.pop demo_queue (VInt 1) demo_put).2.

(** [peek(1)] at time 300: the lease has expired, once. *)
Definition demo_expired_once : World Engine.t :=
  (Queue.peek demo_queue (VInt 1) demo_leased).2.

(** [pop(1)] at time 400, the lease running until 560, and [peek(1)] at
    time 600: the second lease has expired too. *)
Definition demo_expired_twice : World Engine.t :=
  (Queue.peek demo_queue (VInt 1)
              (Queue.pop demo_queue (VInt 1) demo_expired_once).2).2.

Definition demo_record : Engine.record :=
  Engine.mkRecord (json_dumps demo_data) (-1) (json_dumps (VList []))
                  0%float 1 "testing" Engine.Waiting.

(** ** Sequences of calls *)

(** One call of a method of a queue, by a caller that goes on whatever
    the call returns or raises. *)
Inductive invocation : Type :=
| CallPut (data priority tags delay retries : value)
| CallPop (count : value)
| CallPeek (count : value)
| CallFail (job : Job) (t message : value)
| CallHeartbeat (job : Job)
| CallComplete (job : Job) (next delay : value)
| CallStats (date : value)
| CallLen.

Section Calls.

Context {S : Type} `{Client S}.

Variable float_of_str : string -> option float.

(** The world a call leaves. *)
Definition perform (self : Queue.t) (w : World S) (c : invocation)
  : World S :=
  match c with
  | CallPut data priority tags delay retries =>
      (Queue.put self data priority tags delay retries w).2
  | CallPop count => (Queue.pop self count w).2
  | CallPeek count => (Queue.peek self count w).2
  | CallFail job t message => (Queue.fail self job t message w).2
  | CallHeartbeat job => (Queue.heartbeat float_of_str self job w).2
  | CallComplete job next delay => (Queue.complete self job next delay w).2
  | CallStats date => (Queue.stats self date w).2
  | CallLen => (Queue.__len__ self w).2
  end.

Definition perform_all (self : Queue.t) (cs : list invocation)
    (w : World S) : World S :=
  fold_left (perform self) cs w.

(** The request a call sends from world [w]. *)
Definition request_of (self : Queue.t) (w : World S) (c : invocation)
  : request :=
  match c with
  | CallPut data priority tags delay retries =>
      Eval SPut [VStr (Queue.name self)]
           (put_args self data priority tags delay retries w)
  | CallPop count =>
      Eval SPop [VStr (Queue.name self)] (pop_args self count w)
  | CallPeek count =>
      Eval SPeek [VStr (Queue.name self)] (peek_args count w)
  | CallFail job t message =>
      Eval SFail [] (fail_args self job t message w)
  | CallHeartbeat job =>
      Eval SHeartbeat [] (heartbeat_args self job w)
  | CallComplete job next delay =>
      Eval SComplete [] (complete_args self job next delay w)
  | CallStats date =>
      Eval SStats []
           [VStr (Queue.name self);
            if truthy date then date else VFloat (clock w (ticks w))]
  | CallLen => Exec (len_cmds self)
  end.

(** The requests a sequence of calls sends, oldest first. *)
Fixpoint requests_of (self : Queue.t) (w : World S) (cs : list invocation)
  : list request :=
  match cs with
  | [] => []
  | c :: cs' => request_of self w c :: requests_of self (perform self w c) cs'
  end.

(** What the engine does with one request, and with a log of them, the
    other clients acting ahead of each. *)
Definition serve (rq : request) (s : S) : S :=
  match rq with
  | Eval f keys args => (run_script f keys args s).2
  | Exec cmds => (run_pipeline cmds s).2
  end.

Fixpoint replay (env : nat -> S -> S) (trip : nat) (log : list request)
    (s : S) : S :=
  match log with
  | [] => s
  | rq :: log' => replay env (Datatypes.S trip) log' (serve rq (env trip s))
  end.

End Calls.

(** How often a call reads the clock and draws from the uuid generator. *)
Definition clock_reads (c : invocation) : nat :=
  match c with
  | CallPop _ => 2
  | CallStats date => if truthy date then 0 else 1
  | CallLen => 0
  | _ => 1
  end.

Definition uuid_draws (c : invocation) : nat :=
  match c with
  | CallPut _ _ _ _ _ => 1
  | _ => 0
  end.

(** The job ids the [Put] requests of a log carry. *)
Definition put_id (rq : request) : option value :=
  match rq with
  | Eval SPut _ (id :: _) => Some id
  | _ => None
  end.

Definition put_ids (log : list request) : list value := omap put_id log.

(** What one item of a reply becomes. *)
Definition decode_item (item : value) : result Job :=
  match json_loads item with
  | Ok kwargs => Job_init kwargs
  | Raise e => Raise e
  end.

Definition raises {A} (r : result A) : Prop :=
  match r with
  | Raise _ => True
  | Ok _ => False
  end.

(** The three sorted sets of a queue and the keys [__len__] counts them
    under. *)
Inductive zset : Type := Locks | Work | Scheduled.

Definition zset_suffix (z : zset) : string :=
  match z with
  | Locks => "-locks"
  | Work => "-work"
  | Scheduled => "-scheduled"
  end.

Definition zset_key (name : string) (z : zset) : string :=
  "ql:q:" ++ name ++ zset_suffix z.

(** An engine that answers every script with the list of its arguments
    and every count with [None]. *)
Definition echo_client : Client unit := {|
  run_script := fun _ _ args s => (VList args, s);
  run_pipeline := fun cmds s => (map (fun _ => VNone) cmds, s)
|}.

Definition echo_world : World unit :=
  mkWorld demo_clock 0 pretty 0 (fun _ s => s) 0 tt [].

(** An engine that has one answer to everything. *)
Definition canned_client (reply : value) : Client unit := {|
  run_script := fun _ _ _ s => (reply, s);
  run_pipeline := fun cmds s => (map (fun _ => reply) cmds, s)
|}.

(** Two [put]s with a [pop] and a [fail] between them. *)
Definition demo_calls : list invocation :=
  [CallPut demo_data VNone VNone VNone VNone;
   CallPop VNone;
   CallFail demo_job (VStr "bad input") (VStr "boom");
   CallPut demo_data (VInt 5) VNone (VInt 30) VNone].

(** * What the methods send, for every engine *)

Section Requests.

Context {S : Type} `{Client S}.

Variable float_of_str : string -> option float.

Lemma put_run (self : Queue.t) (data priority tags delay retries : value)
    (w : World S) :
  let keys := [VStr (Queue.name self)] in
  let args := put_args self data priority tags delay retries w in
  Queue.put self data priority tags delay retries w =
    (Ok (run_script SPut keys args (arriving w)).1,
     after_call w (Datatypes.S (ticks w)) (Datatypes.S (drawn w))
                SPut keys args).
Proof.
  cbv zeta. unfold Queue.put, bind, uuid1_hex, time_time, _put, call,
    after_call, put_args, arriving. simpl.
  destruct (run_script SPut _ _ _) as [r s']. reflexivity.
Qed.

Lemma pop_run (self : Queue.t) (count : value) (w : World S) :
  let keys := [VStr (Queue.name self)] in
  let args := pop_args self count w in
  let w' := after_call w (2 + ticks w)%nat (drawn w) SPop keys args in
  Queue.pop self count w =
    match Queue.jobs_of (run_script SPop keys args (arriving w)).1 with
    | Raise e => (Raise e, w')
    | Ok results =>
        if is_None count
        then (Queue.first_or_None results, w')
        else (Ok (OJobs results), w')
    end.
Proof.
  cbv zeta. unfold Queue.pop, bind, time_time, _pop, call, lift, ret,
    after_call, pop_args, arriving. simpl.
  destruct (run_script SPop _ _ _) as [r s']. simpl.
  destruct (Queue.jobs_of r); [|reflexivity].
  destruct (is_None count); reflexivity.
Qed.

Lemma peek_run (self : Queue.t) (count : value) (w : World S) :
  let keys := [VStr (Queue.name self)] in
  let args := peek_args count w in
  let w' := after_call w (Datatypes.S (ticks w)) (drawn w) SPeek keys args in
  Queue.peek self count w =
    match Queue.jobs_of (run_script SPeek keys args (arriving w)).1 with
    | Raise e => (Raise e, w')
    | Ok results =>
        if is_None count
        then (Queue.first_or_None results, w')
        else (Ok (OJobs results), w')
    end.
Proof.
  cbv zeta. unfold Queue.peek, bind, time_time, _peek, call, lift, ret,
    after_call, peek_args, arriving. simpl.
  destruct (run_script SPeek _ _ _) as [r s']. simpl.
  destruct (Queue.jobs_of r); [|reflexivity].
  destruct (is_None count); reflexivity.
Qed.

Lemma heartbeat_run (self : Queue.t) (job : Job) (w : World S) :
  let args := heartbeat_args self job w in
  Queue.heartbeat float_of_str self job w =
    (Queue.py_float float_of_str
       (py_or (run_script SHeartbeat [] args (arriving w)).1 (VInt 0)),
     after_call w (Datatypes.S (ticks w)) (drawn w) SHeartbeat [] args).
Proof.
  cbv zeta. unfold Queue.heartbeat, bind, time_time, _heartbeat, call, lift,
    after_call, heartbeat_args, arriving. simpl.
  destruct (run_script SHeartbeat _ _ _) as [r s']. reflexivity.
Qed.

Lemma fail_run (self : Queue.t) (job : Job) (t message : value)
    (w : World S) :
  let args := fail_args self job t message w in
  Queue.fail self job t message w =
    (Ok (py_or (run_script SFail [] args (arriving w)).1 (VBool false)),
     after_call w (Datatypes.S (ticks w)) (drawn w) SFail [] args).
Proof.
  cbv zeta. unfold Queue.fail, bind, time_time, _fail, call, ret,
    after_call, fail_args, arriving. simpl.
  destruct (run_script SFail _ _ _) as [r s']. reflexivity.
Qed.

Lemma complete_run (self : Queue.t) (job : Job) (next delay : value)
    (w : World S) :
  let args := complete_args self job next delay w in
  Queue.complete self job next delay w =
    (Ok (py_or (run_script SComplete [] args (arriving w)).1 (VBool false)),
     after_call w (Datatypes.S (ticks w)) (drawn w) SComplete [] args).
Proof.
  cbv zeta. unfold Queue.complete, complete_args.
  destruct (truthy next);
    unfold bind, time_time, _complete, call, ret, after_call, arriving;
    simpl; destruct (run_script SComplete _ _ _) as [r s']; reflexivity.
Qed.

Lemma len_run (self : Queue.t) (w : World S) :
  let rs := run_pipeline (len_cmds self) (arriving w) in
  let w' := mkWorld (clock w) (ticks w) (uuids w) (drawn w) (others w)
                    (Datatypes.S (trips w)) rs.2
                    (sent w ++ [Exec (len_cmds self)]) in
  Queue.__len__ self w =
    match py_sum 0 rs.1 with
    | Ok total => (Ok (VInt total), w')
    | Raise e => (Raise e, w')
    end.
Proof.
  cbv zeta. unfold Queue.__len__, bind, execute, lift, ret, len_cmds,
    arriving. simpl.
  destruct (run_pipeline _ _) as [rs s']. simpl.
  destruct (py_sum 0 rs); reflexivity.
Qed.

End Requests.

Section Sending.

Context {S : Type} `{Client S}.

Variable float_of_str : string -> option float.

(** C2: [put] draws a fresh id from the uuid generator (one that no
    earlier and no later draw returns, as long as the generator never
    repeats itself), reads the clock, and sends both along with the
    JSON-encoded payload and tags; an optional argument left at [None] is
    sent as its default: priority 0, tags the empty list, delay 0,
    retries 5. *)
Theorem put_sends_fresh_id_and_defaults
    (self : Queue.t) (data priority tags delay retries : value)
    (w : World S) :
  Inj (=) (=) (uuids w) ->
  let id := uuids w (drawn w) in
  let now := clock w (ticks w) in
  let w' := (Queue.put self data priority tags delay retries w).2 in
  sent w' =
    sent w ++
    [Eval SPut [VStr (Queue.name self)]
       [VStr id; json_dumps data; VFloat now;
        py_or priority (VInt 0);
        json_dumps (py_or tags (VList []));
        py_or delay (VInt 0);
        py_or retries (VInt 5)]]
  /\ (forall k, (k < drawn w)%nat -> uuids w k <> id)
  /\ (forall k, (drawn w' <= k)%nat -> uuids w' k <> id)
  /\ sent (Queue.put self data VNone VNone VNone VNone w).2 =
       sent w ++
       [Eval SPut [VStr (Queue.name self)]
          [VStr id; json_dumps data; VFloat now;
           VInt 0; json_dumps (VList []); VInt 0; VInt 5]].
Proof.
  intros Hinj id now w'. subst w'. rewrite !put_run. simpl.
  repeat split.
  - intros k Hk Heq. apply Hinj in Heq. lia.
  - intros k Hk Heq. apply Hinj in Heq. lia.
Qed.

(** C6: a queue as [__init__] makes it sends, as the lease expiry of
    [pop] and of [heartbeat], the clock reading taken for that argument
    plus 60 (in [pop] this is the second reading, the first being sent as
    the current time). *)
Theorem lease_expiry_is_clock_plus_60
    (name worker : string) (count : value) (job : Job) (w : World S) :
  let self := Queue.__init__ name worker in
  sent (Queue.pop self count w).2 =
    sent w ++
    [Eval SPop [VStr name]
       [VStr worker; py_or count (VInt 1);
        VFloat (clock w (ticks w));
        VFloat (PrimFloat.add (clock w (Datatypes.S (ticks w))) 60%float)]]
  /\ sent (Queue.heartbeat float_of_str self job w).2 =
       sent w ++
       [Eval SHeartbeat []
          [job_id job; VStr worker;
           VFloat (PrimFloat.add (clock w (ticks w)) 60%float);
           json_dumps (job_data job)]].
Proof.
  cbv zeta. rewrite pop_run, heartbeat_run. cbv zeta. split.
  - destruct (Queue.jobs_of _); [destruct (is_None count)|]; reflexivity.
  - reflexivity.
Qed.

(** C9: [put] with [retries=0] sends 5, and whatever is given for
    [retries], a zero is never sent; [delay=0] and [priority=0] send what
    leaving them out sends. *)
Theorem put_zero_is_unspecified
    (self : Queue.t) (data priority tags delay retries : value)
    (w : World S) :
  sent (Queue.put self data priority tags delay (VInt 0) w).2 =
    sent w ++
    [Eval SPut [VStr (Queue.name self)]
       [VStr (uuids w (drawn w)); json_dumps data;
        VFloat (clock w (ticks w));
        py_or priority (VInt 0);
        json_dumps (py_or tags (VList []));
        py_or delay (VInt 0);
        VInt 5]]
  /\ Queue.put self data priority tags delay (VInt 0) w =
     Queue.put self data priority tags delay VNone w
  /\ py_or retries (VInt 5) <> VInt 0
  /\ Queue.put self data priority tags (VInt 0) retries w =
     Queue.put self data priority tags VNone retries w
  /\ Queue.put self data (VInt 0) tags delay retries w =
     Queue.put self data VNone tags delay retries w.
Proof.
  rewrite !put_run. repeat split.
  unfold py_or. destruct (truthy retries) eqn:E; [|discriminate].
  intros ->. discriminate.
Qed.

End Sending.

(** * The engine's views and replies *)

Section Views.

Import Engine.

Lemma insert_by_perm {A} (le : A -> A -> bool) (x : A) (l : list A) :
  insert_by le x l ≡ₚ x :: l.
Proof.
  induction l as [|y l IH]; simpl; [done|].
  destruct (le y x); [|done].
  rewrite IH. apply Permutation_swap.
Qed.

Lemma sort_by_perm {A} (le : A -> A -> bool) (l : list A) :
  sort_by le l ≡ₚ l.
Proof.
  induction l as [|x l IH]; simpl; [done|].
  unfold sort_by in *. simpl. rewrite insert_by_perm. by f_equiv.
Qed.

Lemma length_sort_by {A} (le : A -> A -> bool) (l : list A) :
  List.length (sort_by le l) = List.length l.
Proof. by rewrite sort_by_perm. Qed.

Lemma elem_of_stdlib_filter {A} (p : A -> bool) (l : list A) (x : A) :
  x ∈ List.filter p l -> x ∈ l.
Proof.
  rewrite !list_elem_of_In. intros Hin. by apply List.filter_In in Hin as [? _].
Qed.

(** Every entry of the waiting view is a job of the store. *)
Lemma waiting_lookup (q : string) (s : t) (e : string * record) :
  e ∈ waiting q s -> s !! e.1 = Some e.2.
Proof.
  unfold waiting. rewrite sort_by_perm. intros Hin.
  apply elem_of_stdlib_filter in Hin.
  destruct e as [id r]. by apply elem_of_map_to_list in Hin.
Qed.

Lemma selected_lookup (q : string) (n : Z) (now : float) (s : t)
    (e : string * record) :
  e ∈ selected q n now s -> refresh q now s !! e.1 = Some e.2.
Proof.
  unfold selected, available. intros Hin.
  apply waiting_lookup with (q := q).
  by eapply subseteq_take.
Qed.

Lemma chosen_in (ids : list string) (id : string) :
  id ∈ ids -> chosen ids id = true.
Proof.
  intros Hin. unfold chosen. apply existsb_exists. exists id. split.
  - by apply list_elem_of_In.
  - apply String.eqb_refl.
Qed.

(** What a pop leaves under each id. *)
Lemma pop_lookup (q w : string) (n : Z) (now expiry : float) (s : t)
    (id : string) :
  (pop q w n now expiry s).2 !! id =
    (fun r => if chosen (map fst (selected q n now s)) id
              then lease w expiry r else r)
    <$> (promote q now <$> (reclaim q now <$> s !! id)).
Proof.
  unfold pop. simpl. rewrite map_lookup_imap. unfold refresh.
  rewrite !lookup_fmap. by destruct (s !! id).
Qed.

Lemma pop_reply (q w : string) (n : Z) (now expiry : float) (s : t) :
  (pop q w n now expiry s).1 =
    VList (map serialise
             (map (fun e => (e.1, lease w expiry e.2)) (selected q n now s))).
Proof. unfold pop. simpl. by rewrite map_map. Qed.

(** The client rebuilds exactly the jobs the engine serialised. *)
Lemma jobs_of_serialised (l : list (string * record)) :
  Queue.jobs_of (VList (map serialise l)) = Ok (map received l).
Proof.
  unfold Queue.jobs_of. cbn [Queue.py_iter].
  induction l as [|e l IH]; simpl; [done|].
  by rewrite IH.
Qed.

End Views.

(** * The methods against the engine *)

Section Pop.

Variable self : Queue.t.

Lemma pop_engine_reply (n : Z) (w : World Engine.t) :
  run_script SPop [VStr (Queue.name self)] (pop_args self (VInt n) w)
             (arriving w) =
  Engine.pop (Queue.name self) (Queue.worker self) (asked (VInt n))
             (clock w (ticks w))
             (PrimFloat.add (clock w (Datatypes.S (ticks w)))
                            (float_of_Z (Queue._hb self)))
             (arriving w).
Proof.
  unfold pop_args, asked, py_or. simpl.
  unfold Engine.run. simpl. by destruct (n =? 0).
Qed.

Lemma pop_list (n : Z) (w : World Engine.t) :
  (Queue.pop self (VInt n) w).1 =
    Ok (OJobs (map Engine.received (popped self (VInt n) w))).
Proof.
  rewrite pop_run. cbv zeta. rewrite pop_engine_reply, pop_reply.
  by rewrite jobs_of_serialised.
Qed.

Lemma pop_store (n : Z) (w : World Engine.t) :
  store (Queue.pop self (VInt n) w).2 =
    (Engine.pop (Queue.name self) (Queue.worker self) (asked (VInt n))
                (clock w (ticks w))
                (PrimFloat.add (clock w (Datatypes.S (ticks w)))
                               (float_of_Z (Queue._hb self)))
                (arriving w)).2.
Proof.
  rewrite pop_run. cbv zeta. rewrite pop_engine_reply, pop_reply.
  rewrite jobs_of_serialised. change (is_None (VInt n)) with false.
  cbv iota. unfold after_call. cbn [store snd].
  by rewrite pop_engine_reply.
Qed.

(** C1: [pop] with a count [n] returns the list of the jobs the engine
    popped, each as the store now holds it (leased to this worker); when
    no more than [n] jobs are available these are all of them, and none
    when none is available. *)
Theorem pop_returns_as_many_as_exist (n : Z) (w : World Engine.t) :
  let ready :=
    Engine.available (Queue.name self) (clock w (ticks w)) (arriving w) in
  (Queue.pop self (VInt n) w).1 =
    Ok (OJobs (map Engine.received (popped self (VInt n) w)))
  /\ Forall (fun e => store (Queue.pop self (VInt n) w).2 !! e.1 = Some e.2
                      /\ Engine.leased_by e.1 (Queue.worker self)
                           (store (Queue.pop self (VInt n) w).2) = true)
            (popped self (VInt n) w)
  /\ map fst (popped self (VInt n) w) =
       take (Z.to_nat (if n =? 0 then 1 else n)) (map fst ready)
  /\ (Z.of_nat (List.length ready) <= n ->
      map fst (popped self (VInt n) w) = map fst ready)
  /\ (ready = [] -> (Queue.pop self (VInt n) w).1 = Ok (OJobs [])).
Proof.
  intros ready.
  assert (Hasked : asked (VInt n) = if n =? 0 then 1 else n).
  { unfold asked, py_or. simpl. by destruct (n =? 0). }
  assert (Hids : map fst (popped self (VInt n) w) =
                 take (Z.to_nat (if n =? 0 then 1 else n)) (map fst ready)).
  { unfold popped, Engine.selected. rewrite map_map. simpl.
    rewrite Hasked. fold ready. by rewrite <- fmap_take. }
  split; [apply pop_list|].
  split.
  { rewrite pop_store. apply Forall_forall. intros e He.
    unfold popped in He. apply list_elem_of_fmap in He as [e0 [-> He0]].
    pose proof (Engine_selected_lookup := selected_lookup _ _ _ _ _ He0).
    assert (Hl : (Engine.pop (Queue.name self) (Queue.worker self)
                    (asked (VInt n)) (clock w (ticks w))
                    (PrimFloat.add (clock w (Datatypes.S (ticks w)))
                       (float_of_Z (Queue._hb self)))
                    (arriving w)).2 !! e0.1 =
                 Some (Engine.lease (Queue.worker self)
                         (PrimFloat.add (clock w (Datatypes.S (ticks w)))
                            (float_of_Z (Queue._hb self))) e0.2)).
    { rewrite pop_lookup. unfold Engine.refresh in Engine_selected_lookup.
      rewrite !lookup_fmap in Engine_selected_lookup.
      rewrite Engine_selected_lookup. simpl.
      rewrite chosen_in; [done|].
      apply list_elem_of_fmap. by exists e0. }
    cbn [fst snd]. split; [exact Hl|].
    unfold Engine.leased_by. rewrite Hl. simpl. apply String.eqb_refl. }
  split; [exact Hids|].
  split.
  - intros Hle. rewrite Hids. apply take_ge. rewrite length_map.
    destruct (n =? 0) eqn:E; lia.
  - intros Hnil. rewrite pop_list. unfold popped, Engine.selected.
    fold ready. rewrite Hnil. by rewrite take_nil.
Qed.

End Pop.

Section Heartbeat.

Variable float_of_str : string -> option float.
Variable self : Queue.t.

Lemma heartbeat_engine_reply (i : string) (d : value)
    (kw : list (string * value)) (w : World Engine.t) :
  run_script SHeartbeat [] (heartbeat_args self (mkJob (VStr i) d kw) w)
             (arriving w) =
  Engine.heartbeat i (Queue.worker self)
    (PrimFloat.add (clock w (ticks w)) (float_of_Z (Queue._hb self)))
    (Some (json_dumps d)) (arriving w).
Proof. reflexivity. Qed.

(** C3: as long as the expiry asked for is not zero, [heartbeat] returns
    that expiry, now the job's lease expiry, when the job is leased by
    this worker; otherwise it returns 0 and the store is as it was: a
    result of 0 never comes with a change to a lease. *)
Theorem heartbeat_renews_or_returns_zero (i : string) (d : value)
    (kw : list (string * value)) (w : World Engine.t) :
  let job := mkJob (VStr i) d kw in
  let expiry :=
    PrimFloat.add (clock w (ticks w)) (float_of_Z (Queue._hb self)) in
  let res := (Queue.heartbeat float_of_str self job w).1 in
  let after := store (Queue.heartbeat float_of_str self job w).2 in
  truthy (VFloat expiry) = true ->
  (Engine.leased_by i (Queue.worker self) (arriving w) = true ->
   res = Ok expiry
   /\ exists r, after !! i = Some r
                /\ Engine.r_state r = Engine.Leased (Queue.worker self) expiry)
  /\ (Engine.leased_by i (Queue.worker self) (arriving w) = false ->
      res = Ok PrimFloat.zero /\ after = arriving w)
  /\ (res = Ok PrimFloat.zero -> after = arriving w).
Proof.
  intros job expiry res after Hnz. subst res after job.
  rewrite heartbeat_run. cbv zeta. unfold after_call. cbn [fst snd store].
  rewrite heartbeat_engine_reply. fold expiry.
  unfold Engine.leased_by, Engine.heartbeat.
  destruct (arriving w !! i) as [r|] eqn:Hr;
    [destruct (Engine.r_state r) as [| |owner e| |] eqn:Hst;
     [| |destruct (String.eqb owner (Queue.worker self)) eqn:Ho| |]|];
    cbn [fst snd]; unfold py_or; try rewrite Hnz;
    (repeat split; try discriminate; try done).
  - eexists. rewrite lookup_insert_eq. split; [reflexivity|].
    apply String.eqb_eq in Ho. by subst owner.
  - intros [= Hz]. rewrite Hz in Hnz. discriminate.
Qed.

End Heartbeat.

Section Complete.

Variable self : Queue.t.

Lemma complete_retire_reply (i : string) (d : value)
    (kw : list (string * value)) (next delay : value) (w : World Engine.t) :
  truthy next = false ->
  run_script SComplete []
    (complete_args self (mkJob (VStr i) d kw) next delay w) (arriving w) =
  Engine.complete i (Queue.worker self) (Queue.name self)
    (clock w (ticks w)) (json_dumps d) None PrimFloat.zero (arriving w).
Proof. intros Hn. unfold complete_args. rewrite Hn. reflexivity. Qed.

Lemma complete_next_reply (i : string) (d : value)
    (kw : list (string * value)) (q' : string) (delay : value) (dl : float)
    (w : World Engine.t) :
  q' <> ""%string ->
  Engine.as_float (py_or delay (VInt 0)) = Some dl ->
  run_script SComplete []
    (complete_args self (mkJob (VStr i) d kw) (VStr q') delay w)
    (arriving w) =
  Engine.complete i (Queue.worker self) (Queue.name self)
    (clock w (ticks w)) (json_dumps d) (Some q') dl (arriving w).
Proof.
  intros Hq Hdl. unfold complete_args.
  assert (Ht : truthy (VStr q') = true).
  { simpl. destruct (String.eqb_spec q' ""); [done|reflexivity]. }
  rewrite Ht. cbn [app job_id job_data]. unfold run_script, Engine.client.
  unfold Engine.run. cbn [Engine.decode Engine.as_float].
  by rewrite Hdl.
Qed.

(** Without the lease the engine answers [False] to any [Complete]. *)
Lemma complete_refused (i wk q : string) (args : list value) (s : Engine.t) :
  Engine.leased_on i wk q s = false ->
  (exists rest, args = VStr i :: VStr wk :: VStr q :: rest) ->
  Engine.run SComplete [] args s = (VBool false, s).
Proof.
  intros Hl [rest ->]. unfold Engine.run.
  destruct (Engine.decode SComplete [] (VStr i :: VStr wk :: VStr q :: rest))
    as [o|] eqn:Ho; [|done].
  assert (Hc : exists now payload next delay,
             o = Engine.Complete i wk q now payload next delay).
  { destruct rest as [|now [|data [|next [|delay [|]]]]]; try discriminate;
      simpl in Ho.
    - destruct (Engine.as_float now); [|discriminate].
      injection Ho as <-. eauto.
    - destruct next; try discriminate.
    - destruct next; try discriminate.
      destruct (Engine.as_float now); [|discriminate].
      destruct (Engine.as_float delay); [|discriminate].
      injection Ho as <-. eauto.
    - destruct next; discriminate. }
  destruct Hc as (now & payload & next & delay & ->). simpl.
  unfold Engine.leased_on in Hl. unfold Engine.complete.
  destruct (s !! i) as [r|]; [|done].
  destruct (Engine.r_state r); try done.
  by rewrite Hl.
Qed.

(** C4: [complete] returns [False], and changes nothing, unless the job
    is leased by this worker on this queue.  When it is: with no next
    queue the job retires; with a next queue it is put there, waiting when
    the delay is left out (or not positive) and scheduled at the current
    time plus the delay otherwise. *)
Theorem complete_needs_the_lease (i : string) (d : value)
    (kw : list (string * value)) (next delay : value) (w : World Engine.t) :
  let job := mkJob (VStr i) d kw in
  let now := clock w (ticks w) in
  let res := (Queue.complete self job next delay w).1 in
  let after := store (Queue.complete self job next delay w).2 in
  let held :=
    Engine.leased_on i (Queue.worker self) (Queue.name self) (arriving w) in
  (held = false -> res = Ok (VBool false) /\ after = arriving w)
  /\ (forall r, arriving w !! i = Some r -> held = true ->
      (truthy next = false ->
       res = Ok (VBool true)
       /\ after =
            <[i := Engine.with_state Engine.Completed
                     (Engine.with_data (json_dumps d) r)]> (arriving w))
      /\ (forall q' dl, next = VStr q' -> q' <> ""%string ->
          Engine.as_float (py_or delay (VInt 0)) = Some dl ->
          res = Ok (VBool true)
          /\ after =
               <[i := Engine.with_state (Engine.entry_state now dl)
                        (Engine.with_queue q'
                           (Engine.with_data (json_dumps d) r))]>
               (arriving w))
      /\ (forall q', next = VStr q' -> q' <> ""%string -> delay = VNone ->
          res = Ok (VBool true)
          /\ after =
               <[i := Engine.with_state Engine.Waiting
                        (Engine.with_queue q'
                           (Engine.with_data (json_dumps d) r))]>
               (arriving w))).
Proof.
  intros job now res after held. subst res after job.
  rewrite complete_run. cbv zeta. unfold after_call. cbn [fst snd store].
  assert (Hgranted : forall r nx dl,
    arriving w !! i = Some r -> held = true ->
    Engine.complete i (Queue.worker self) (Queue.name self) now
      (json_dumps d) nx dl (arriving w) =
    (VBool true,
     <[i := match nx with
            | Some q' =>
                Engine.with_state (Engine.entry_state now dl)
                  (Engine.with_queue q' (Engine.with_data (json_dumps d) r))
            | None =>
                Engine.with_state Engine.Completed
                  (Engine.with_data (json_dumps d) r)
            end]> (arriving w))).
  { intros r nx dl Hr Hh. subst held. unfold Engine.leased_on in Hh.
    unfold Engine.complete. rewrite Hr in *.
    destruct (Engine.r_state r); try discriminate.
    rewrite Hh. by destruct nx. }
  split.
  - intros Hh. subst held.
    rewrite (complete_refused i (Queue.worker self) (Queue.name self));
      [done|done|].
    unfold complete_args. cbn [job_id app]. eauto.
  - intros r Hr Hh. repeat split.
    + rewrite complete_retire_reply by done.
      by rewrite (Hgranted r None _ Hr Hh).
    + rewrite complete_retire_reply by done.
      by rewrite (Hgranted r None _ Hr Hh).
    + subst next. rewrite (complete_next_reply _ _ _ _ _ dl) by done.
      by rewrite (Hgranted r (Some q') _ Hr Hh).
    + subst next. rewrite (complete_next_reply _ _ _ _ _ dl) by done.
      by rewrite (Hgranted r (Some q') _ Hr Hh).
    + subst next delay.
      rewrite (complete_next_reply _ _ _ _ _ (float_of_Z 0)) by done.
      by rewrite (Hgranted r (Some q') _ Hr Hh).
    + subst next delay.
      rewrite (complete_next_reply _ _ _ _ _ (float_of_Z 0)) by done.
      by rewrite (Hgranted r (Some q') _ Hr Hh).
Qed.

End Complete.

Section Fail.

Variable self : Queue.t.

(** C5: [fail] sends the job's current data as the payload; whatever
    state the job is in (leased or not, by this worker or another), the
    engine records the failure with that payload and the result is the
    job's id; the result is [False], and nothing changes, when the engine
    does not know the job. *)
Theorem fail_in_any_state (i : string) (d : value)
    (kw : list (string * value)) (category message : string)
    (w : World Engine.t) :
  let job := mkJob (VStr i) d kw in
  let call := Queue.fail self job (VStr category) (VStr message) w in
  sent call.2 =
    sent w ++
    [Eval SFail []
       [VStr i; VStr (Queue.worker self); VStr category; VStr message;
        VFloat (clock w (ticks w)); json_dumps (job_data job)]]
  /\ (forall r, arriving w !! i = Some r -> i <> ""%string ->
      call.1 = Ok (VStr i)
      /\ store call.2 =
           <[i := Engine.with_state
                    (Engine.Failed
                       (Engine.mkFailure category message (json_dumps d)))
                    (Engine.with_data (json_dumps d) r)]> (arriving w))
  /\ (arriving w !! i = None ->
      call.1 = Ok (VBool false) /\ store call.2 = arriving w).
Proof.
  cbv zeta. rewrite fail_run. cbv zeta. unfold after_call.
  cbn [fst snd store sent].
  change (run_script SFail []
            (fail_args self (mkJob (VStr i) d kw) (VStr category)
               (VStr message) w) (arriving w))
    with (Engine.fail i (Queue.worker self) category message
            (clock w (ticks w)) (Some (json_dumps d)) (arriving w)).
  unfold Engine.fail. split; [reflexivity|]. split.
  - intros r Hr Hi. rewrite Hr. cbn [fst snd]. split; [|reflexivity].
    unfold py_or. simpl.
    destruct (String.eqb_spec i ""); [done|reflexivity].
  - intros Hr. by rewrite Hr.
Qed.

End Fail.

(** * The keys [__len__] counts *)

Section Keys.

Import Engine.

Lemma chars_app (a b : string) :
  list_ascii_of_string (a ++ b) =
  list_ascii_of_string a ++ list_ascii_of_string b.
Proof. induction a as [|c a IH]; simpl; [done|]. by rewrite IH. Qed.

Lemma chars_inj (a b : string) :
  list_ascii_of_string a = list_ascii_of_string b -> a = b.
Proof.
  intros Heq. apply (f_equal string_of_list_ascii) in Heq.
  by rewrite !string_of_list_ascii_of_string in Heq.
Qed.

(** Two keys under the common prefix, read from their ends. *)
Lemma key_tails (a b s1 s2 : string) :
  ("ql:q:" ++ a ++ s1)%string = ("ql:q:" ++ b ++ s2)%string ->
  rev (list_ascii_of_string s1) ++ rev (list_ascii_of_string a) =
  rev (list_ascii_of_string s2) ++ rev (list_ascii_of_string b).
Proof.
  intros Heq. apply (inj (String.app "ql:q:")) in Heq.
  apply (f_equal list_ascii_of_string) in Heq.
  rewrite !chars_app in Heq. apply (f_equal (@rev _)) in Heq.
  by rewrite !rev_app_distr in Heq.
Qed.

Lemma key_same_suffix (a b s : string) :
  String.eqb ("ql:q:" ++ a ++ s) ("ql:q:" ++ b ++ s) = String.eqb a b.
Proof.
  destruct (String.eqb_spec a b) as [->|Hne].
  - apply String.eqb_refl.
  - apply String.eqb_neq. intros Heq. apply Hne.
    apply key_tails, app_inv_head in Heq.
    apply (f_equal (@rev _)) in Heq. rewrite !rev_involutive in Heq.
    by apply chars_inj.
Qed.

Ltac keys_differ :=
  apply String.eqb_neq; intros Heq; apply key_tails in Heq;
  simpl in Heq; discriminate.

Lemma key_locks_work (a b : string) :
  String.eqb ("ql:q:" ++ a ++ "-locks") ("ql:q:" ++ b ++ "-work") = false.
Proof. keys_differ. Qed.

Lemma key_locks_scheduled (a b : string) :
  String.eqb ("ql:q:" ++ a ++ "-locks") ("ql:q:" ++ b ++ "-scheduled") = false.
Proof. keys_differ. Qed.

Lemma key_work_locks (a b : string) :
  String.eqb ("ql:q:" ++ a ++ "-work") ("ql:q:" ++ b ++ "-locks") = false.
Proof. keys_differ. Qed.

Lemma key_work_scheduled (a b : string) :
  String.eqb ("ql:q:" ++ a ++ "-work") ("ql:q:" ++ b ++ "-scheduled") = false.
Proof. keys_differ. Qed.

Lemma key_scheduled_locks (a b : string) :
  String.eqb ("ql:q:" ++ a ++ "-scheduled") ("ql:q:" ++ b ++ "-locks") = false.
Proof. keys_differ. Qed.

Lemma key_scheduled_work (a b : string) :
  String.eqb ("ql:q:" ++ a ++ "-scheduled") ("ql:q:" ++ b ++ "-work") = false.
Proof. keys_differ. Qed.

(** Each key holds exactly the jobs of its view. *)
Lemma held_at_locks (q : string) (e : string * record) :
  held_at ("ql:q:" ++ q ++ "-locks") e = member q is_leased e.
Proof.
  unfold held_at, key_of, member.
  destruct (r_state e.2); cbn [is_leased];
    rewrite ?key_same_suffix, ?key_work_locks, ?key_scheduled_locks,
      ?andb_true_r, ?andb_false_r; reflexivity.
Qed.

Lemma held_at_work (q : string) (e : string * record) :
  held_at ("ql:q:" ++ q ++ "-work") e = member q is_waiting e.
Proof.
  unfold held_at, key_of, member.
  destruct (r_state e.2); cbn [is_waiting];
    rewrite ?key_same_suffix, ?key_locks_work, ?key_scheduled_work,
      ?andb_true_r, ?andb_false_r; reflexivity.
Qed.

Lemma held_at_scheduled (q : string) (e : string * record) :
  held_at ("ql:q:" ++ q ++ "-scheduled") e = member q is_scheduled e.
Proof.
  unfold held_at, key_of, member.
  destruct (r_state e.2); cbn [is_scheduled];
    rewrite ?key_same_suffix, ?key_locks_scheduled, ?key_work_scheduled,
      ?andb_true_r, ?andb_false_r; reflexivity.
Qed.

Lemma zcard_locks (q : string) (s : t) :
  zcard ("ql:q:" ++ q ++ "-locks") s = Z.of_nat (List.length (locks q s)).
Proof.
  unfold zcard, locks. rewrite length_sort_by.
  by rewrite (List.filter_ext _ _ (held_at_locks q)).
Qed.

Lemma zcard_work (q : string) (s : t) :
  zcard ("ql:q:" ++ q ++ "-work") s = Z.of_nat (List.length (waiting q s)).
Proof.
  unfold zcard, waiting. rewrite length_sort_by.
  by rewrite (List.filter_ext _ _ (held_at_work q)).
Qed.

Lemma zcard_scheduled (q : string) (s : t) :
  zcard ("ql:q:" ++ q ++ "-scheduled") s =
  Z.of_nat (List.length (scheduled q s)).
Proof.
  unfold zcard, scheduled. rewrite length_sort_by.
  by rewrite (List.filter_ext _ _ (held_at_scheduled q)).
Qed.

End Keys.

(** C7: for every engine [__len__] makes one round trip, a pipeline of
    three counts, and returns the sum of its three replies; against the
    engine this is the sum of the sizes of the locks, waiting and
    scheduled sets of one and the same store: the one the engine holds
    when that round trip arrives, whatever the other clients do before or
    after it. *)
Theorem len_is_the_sum_of_one_snapshot :
  (forall (S : Type) (C : Client S) (self : Queue.t) (w : World S),
     let cmds :=
       [ZCARD ("ql:q:" ++ Queue.name self ++ "-locks");
        ZCARD ("ql:q:" ++ Queue.name self ++ "-work");
        ZCARD ("ql:q:" ++ Queue.name self ++ "-scheduled")] in
     sent (Queue.__len__ self w).2 = sent w ++ [Exec cmds]
     /\ trips (Queue.__len__ self w).2 = Datatypes.S (trips w)
     /\ (Queue.__len__ self w).1 =
          match py_sum 0 (run_pipeline cmds (arriving w)).1 with
          | Ok total => Ok (VInt total)
          | Raise e => Raise e
          end)
  /\ (forall (self : Queue.t) (w : World Engine.t),
        (Queue.__len__ self w).1 =
          Ok (VInt (Engine.length (Queue.name self) (arriving w)))
        /\ store (Queue.__len__ self w).2 = arriving w).
Proof.
  split.
  - intros S C self w. cbv zeta. rewrite len_run. cbv zeta.
    unfold len_cmds. destruct (py_sum 0 _); repeat split.
  - intros self w. rewrite len_run. cbv zeta.
    unfold run_pipeline, Engine.client, Engine.exec, len_cmds.
    cbn [map fst snd Engine.run_command py_sum store].
    rewrite zcard_locks, zcard_work, zcard_scheduled.
    unfold Engine.length. split; reflexivity.
Qed.

(** * The retry budget *)

Section Retries.

Import Engine.

Lemma reclaim_remaining (q : string) (now : float) (r : record) :
  0 <= r_remaining r -> 0 <= r_remaining (reclaim q now r).
Proof.
  intros Hr. unfold reclaim.
  destruct (r_state r); try done.
  destruct (_ && _); [|done].
  destruct (0 <=? r_remaining r - 1) eqn:E; simpl; lia.
Qed.

Lemma promote_remaining (q : string) (now : float) (r : record) :
  r_remaining (promote q now r) = r_remaining r.
Proof.
  unfold promote. destruct (r_state r); try done.
  by destruct (_ && _).
Qed.

Lemma refresh_lookup (q : string) (now : float) (s : t) (id : string) :
  refresh q now s !! id = promote q now <$> (reclaim q now <$> s !! id).
Proof. unfold refresh. by rewrite !lookup_fmap. Qed.

Lemma refresh_nonneg (q : string) (now : float) (s : t) :
  nonneg s -> nonneg (refresh q now s).
Proof.
  intros Hs id r. rewrite refresh_lookup.
  destruct (s !! id) as [r0|] eqn:Hr0; [|done].
  intros [= <-]. rewrite promote_remaining.
  apply reclaim_remaining. by apply (Hs id).
Qed.

Lemma insert_nonneg (id : string) (r : record) (s : t) :
  0 <= r_remaining r -> nonneg s -> nonneg (<[id := r]> s).
Proof. intros Hr Hs. by apply map_Forall_insert_2. Qed.

(** No request takes the retries left of any job below zero, as long as
    no [Put] asks for a negative budget. *)
Lemma apply_nonneg (o : op) (s : t) :
  budget_ok o = true -> nonneg s -> nonneg (apply o s).2.
Proof.
  intros Hb Hs.
  destruct o as [q id payload now priority tags delay retries
                |q w n now expiry|q n now|id w expiry payload
                |id w q now payload next delay
                |id w category message now payload]; simpl.
  - apply insert_nonneg; [|done].
    destruct (s !! id) as [old|] eqn:Hold; simpl.
    + by apply (Hs id).
    + simpl in Hb. lia.
  - intros id r. rewrite map_lookup_imap.
    destruct (refresh q now s !! id) as [r0|] eqn:Hr0; [|done].
    simpl. intros [= <-].
    pose proof (refresh_nonneg q now s Hs id r0 Hr0) as H0.
    by destruct (chosen _ id).
  - by apply refresh_nonneg.
  - unfold heartbeat. destruct (s !! id) as [r|] eqn:Hr; [|done].
    destruct (r_state r); try done.
    destruct (String.eqb _ _); [|done]. simpl.
    apply insert_nonneg; [|done].
    pose proof (Hs id r Hr). by destruct payload.
  - unfold complete. destruct (s !! id) as [r|] eqn:Hr; [|done].
    destruct (r_state r); try done.
    destruct (_ && _); [|done].
    pose proof (Hs id r Hr).
    destruct next; simpl; by apply insert_nonneg.
  - unfold fail. destruct (s !! id) as [r|] eqn:Hr; [|done]. simpl.
    apply insert_nonneg; [|done].
    pose proof (Hs id r Hr). by destruct payload.
Qed.

Lemma apply_all_nonneg (ops : list op) (s : t) :
  forallb budget_ok ops = true -> nonneg s -> nonneg (apply_all ops s).
Proof.
  revert s. induction ops as [|o ops IH]; intros s Hb Hs; [done|].
  simpl in Hb. apply andb_prop in Hb as [Ho Hops].
  unfold apply_all. simpl. apply IH; [done|]. by apply apply_nonneg.
Qed.

(** A job that is not waiting is not leased again. *)
Lemma expire_all_settled (q w : string) (times : list (float * float))
    (r : record) :
  is_waiting (r_state r) = false -> expire_all q w times r = r.
Proof.
  intros Hr. induction times as [|t times IH]; [done|].
  unfold expire_all in *. simpl.
  unfold expire_once at 2. by destruct (r_state r).
Qed.

Lemma expire_once_retry (q w : string) (r : record) (t : float * float) :
  r_state r = Waiting -> r_queue r = q -> PrimFloat.ltb t.1 t.2 = true ->
  1 <= r_remaining r ->
  expire_once q w r t = with_remaining (r_remaining r - 1) r.
Proof.
  intros Hst Hq Ht Hr. unfold expire_once, reclaim. rewrite Hst. simpl.
  rewrite Hq, String.eqb_refl, Ht. simpl.
  destruct (0 <=? r_remaining r - 1) eqn:E; [|lia].
  destruct r. simpl in *. by subst.
Qed.

Lemma expire_once_exhausted (q w : string) (r : record) (t : float * float) :
  r_state r = Waiting -> r_queue r = q -> PrimFloat.ltb t.1 t.2 = true ->
  r_remaining r = 0 ->
  expire_once q w r t =
    with_state (Failed (mkFailure "retries exceeded" "" (r_data r))) r.
Proof.
  intros Hst Hq Ht Hr. unfold expire_once, reclaim. rewrite Hst. simpl.
  rewrite Hq, String.eqb_refl, Ht, Hr. simpl.
  destruct r. simpl in *. by subst.
Qed.

Lemma expire_all_budget (q w : string) (times : list (float * float))
    (r : record) :
  r_state r = Waiting -> r_queue r = q -> 0 <= r_remaining r ->
  Forall (fun t => PrimFloat.ltb t.1 t.2 = true) times ->
  let r' := expire_all q w times r in
  (Z.of_nat (List.length times) <= r_remaining r ->
   r' = with_remaining (r_remaining r - Z.of_nat (List.length times)) r)
  /\ (r_remaining r < Z.of_nat (List.length times) ->
      r' = with_state (Failed (mkFailure "retries exceeded" "" (r_data r)))
             (with_remaining 0 r)).
Proof.
  revert r. induction times as [|t times IH]; intros r Hst Hq Hr Ht.
  - simpl. split; [|lia]. intros _. rewrite Z.sub_0_r.
    by destruct r.
  - apply Forall_cons in Ht as [Ht Hts]. cbv zeta.
    change (expire_all q w (t :: times) r)
      with (expire_all q w times (expire_once q w r t)).
    rewrite length_cons, Nat2Z.inj_succ.
    destruct (Z.eq_dec (r_remaining r) 0) as [Hz|Hnz].
    + rewrite expire_once_exhausted by done.
      rewrite expire_all_settled by done.
      split; [lia|]. intros _. destruct r. simpl in *. by subst.
    + rewrite expire_once_retry by (done || lia).
      destruct (IH (with_remaining (r_remaining r - 1) r)) as [IH1 IH2];
        [done|done|simpl; lia|done|].
      cbv zeta in IH1, IH2. simpl in IH1, IH2. split.
      * intros Hle. rewrite IH1 by lia. unfold with_remaining. simpl.
        f_equal. lia.
      * intros Hlt. rewrite IH2 by lia. reflexivity.
Qed.

(** What a lease that expires does to a job, inside any store: the pop
    puts [lease w lapse.1 r] under the job's id, and the start of the next
    pop or peek after [lapse.1] turns it into [expire_once q w r lapse]. *)
Lemma expiry_in_store (q w id : string) (r : record)
    (lapse : float * float) (s : t) :
  r_state r = Waiting ->
  refresh q lapse.2 (<[id := lease w lapse.1 r]> s) !! id =
    Some (expire_once q w r lapse).
Proof.
  intros Hst. rewrite refresh_lookup, lookup_insert_eq. simpl.
  unfold expire_once. rewrite Hst. f_equal.
  unfold reclaim. simpl.
  destruct (_ && _); [|reflexivity].
  by destruct (0 <=? _).
Qed.

(** C8 (as amended): no sequence of requests whose [Put]s carry a
    non-negative budget takes the retries left of any job below zero; and
    a job with [retries] retries left survives [retries] consecutive
    lease expirations, each one lowering the count by one and returning
    it to waiting, and is failed with category "retries exceeded" by the
    next one, the count staying at zero.  An expiration is a lease
    followed by the reclaim at the start of a later pop or peek. *)
Theorem retries_budget_outlasts_its_count (q w : string) (r : record)
    (times : list (float * float)) (ops : list op) :
  r_state r = Waiting -> r_queue r = q -> 0 <= r_remaining r ->
  Forall (fun t => PrimFloat.ltb t.1 t.2 = true) times ->
  forallb budget_ok ops = true ->
  let r' := expire_all q w times r in
  map_Forall (fun _ x => 0 <= r_remaining x) (apply_all ops ∅)
  /\ 0 <= r_remaining r'
  /\ (Z.of_nat (List.length times) <= r_remaining r ->
      r_state r' = Waiting
      /\ r_remaining r' = r_remaining r - Z.of_nat (List.length times))
  /\ (Z.of_nat (List.length times) = r_remaining r + 1 ->
      r_state r' = Failed (mkFailure "retries exceeded" "" (r_data r))
      /\ r_remaining r' = 0)
  /\ (forall (s : t) (id : string) (lapse : float * float),
        refresh q lapse.2 (<[id := lease w lapse.1 r]> s) !! id =
          Some (expire_once q w r lapse)).
Proof.
  intros Hst Hq Hr Ht Hb r'.
  destruct (expire_all_budget q w times r Hst Hq Hr Ht) as [H1 H2].
  fold r' in H1, H2.
  split; [by apply apply_all_nonneg|].
  split.
  { destruct (Z_le_gt_dec (Z.of_nat (List.length times)) (r_remaining r)).
    - rewrite H1 by done. simpl. lia.
    - rewrite H2 by lia. simpl. lia. }
  split; [intros Hle; by rewrite H1|].
  split; [intros He; by rewrite H2 by lia|].
  intros s id lapse. by apply expiry_in_store.
Qed.

End Retries.

(** * Counts of zero and of [None] *)

Lemma peek_engine_reply (self : Queue.t) (n : Z) (w : World Engine.t) :
  run_script SPeek [VStr (Queue.name self)] (peek_args (VInt n) w)
             (arriving w) =
  Engine.peek (Queue.name self) (asked (VInt n)) (clock w (ticks w))
              (arriving w).
Proof.
  unfold peek_args, asked, py_or. simpl.
  unfold Engine.run. simpl. by destruct (n =? 0).
Qed.

(** * The run of one job with one retry *)

Lemma pop_returns_as_many_as_exist_witness :
  Z.of_nat
    (List.length
       (Engine.available (Queue.name demo_queue)
          (clock demo_put (ticks demo_put)) (arriving demo_put))) <= 3
  /\ map fst (popped demo_queue (VInt 3) demo_put) = ["0"%string]
  /\ (Queue.pop demo_queue (VInt 3) demo_world).1 = Ok (OJobs []).
Proof.
  destruct (pop_returns_as_many_as_exist demo_queue 3 demo_put)
    as (_ & _ & _ & Hall & _).
  destruct (pop_returns_as_many_as_exist demo_queue 3 demo_world)
    as (_ & _ & _ & _ & Hnone).
  assert (Hle : Z.of_nat
            (List.length
               (Engine.available (Queue.name demo_queue)
                  (clock demo_put (ticks demo_put)) (arriving demo_put)))
          <= 3) by (vm_compute; discriminate).
  split; [exact Hle|]. split.
  - rewrite (Hall Hle). vm_compute. reflexivity.
  - apply Hnone. vm_compute. reflexivity.
Defined.

Lemma put_sends_fresh_id_and_defaults_witness :
  Inj (=) (=) (uuids demo_world)
  /\ sent (Queue.put demo_queue demo_data VNone VNone VNone VNone
                     demo_world).2 =
       [Eval SPut [VStr "testing"]
          [VStr "0"; json_dumps demo_data; VFloat 0%float;
           VInt 0; json_dumps (VList []); VInt 0; VInt 5]].
Proof.
  assert (Hinj : Inj (=) (=) (uuids demo_world)).
  { change (uuids demo_world) with (pretty : nat -> string). apply _. }
  split; [exact Hinj|].
  destruct (put_sends_fresh_id_and_defaults demo_queue demo_data
              VNone VNone VNone VNone demo_world Hinj) as (_ & _ & _ & Hs).
  rewrite Hs. vm_compute. reflexivity.
Defined.

Lemma heartbeat_renews_or_returns_zero_witness :
  truthy (VFloat (PrimFloat.add (clock demo_leased (ticks demo_leased))
                                (float_of_Z (Queue._hb demo_queue)))) = true
  /\ Engine.leased_by "0" (Queue.worker demo_queue) (arriving demo_leased)
     = true
  /\ (Queue.heartbeat no_float demo_queue demo_job demo_leased).1
     = Ok 360%float
  /\ (Queue.heartbeat no_float demo_queue demo_job demo_put).1
     = Ok 0%float.
Proof.
  assert (Hnz : forall w : World Engine.t,
            ticks w = ticks demo_leased \/ ticks w = ticks demo_put ->
            clock w = demo_clock ->
            truthy (VFloat (PrimFloat.add (clock w (ticks w))
                              (float_of_Z (Queue._hb demo_queue)))) = true).
  { intros w [Ht|Ht] Hc; rewrite Ht, Hc; vm_compute; reflexivity. }
  assert (Hl : Engine.leased_by "0" (Queue.worker demo_queue)
                 (arriving demo_leased) = true)
    by (vm_compute; reflexivity).
  assert (Hn : Engine.leased_by "0" (Queue.worker demo_queue)
                 (arriving demo_put) = false)
    by (vm_compute; reflexivity).
  split; [apply Hnz; [by left|reflexivity]|]. split; [exact Hl|].
  split.
  - destruct (heartbeat_renews_or_returns_zero no_float demo_queue
                "0" (json_dumps demo_data) [] demo_leased) as (Hy & _ & _).
    { apply Hnz; [by left|reflexivity]. }
    destruct (Hy Hl) as [Hres _]. unfold demo_job. rewrite Hres.
    vm_compute. reflexivity.
  - destruct (heartbeat_renews_or_returns_zero no_float demo_queue
                "0" (json_dumps demo_data) [] demo_put) as (_ & Hno & _).
    { apply Hnz; [by right|reflexivity]. }
    destruct (Hno Hn) as [Hres _]. unfold demo_job. rewrite Hres.
    reflexivity.
Defined.

Lemma complete_needs_the_lease_witness :
  Engine.leased_on "0" (Queue.worker demo_queue) (Queue.name demo_queue)
                   (arriving demo_put) = false
  /\ (Queue.complete demo_queue demo_job (VStr "next") VNone demo_put).1
     = Ok (VBool false)
  /\ Engine.leased_on "0" (Queue.worker demo_queue) (Queue.name demo_queue)
                      (arriving demo_leased) = true
  /\ (Queue.complete demo_queue demo_job (VStr "next") VNone demo_leased).1
     = Ok (VBool true)
  /\ (Engine.r_queue
        <$> store (Queue.complete demo_queue demo_job (VStr "next") VNone
                                  demo_leased).2 !! "0"%string)
     = Some "next"%string
  /\ (Engine.r_state
        <$> store (Queue.complete demo_queue demo_job VNone VNone
                                  demo_leased).2 !! "0"%string)
     = Some Engine.Completed.
Proof.
  assert (Hn : Engine.leased_on "0" (Queue.worker demo_queue)
                 (Queue.name demo_queue) (arriving demo_put) = false)
    by (vm_compute; reflexivity).
  assert (Hy : Engine.leased_on "0" (Queue.worker demo_queue)
                 (Queue.name demo_queue) (arriving demo_leased) = true)
    by (vm_compute; reflexivity).
  assert (Hr : exists r, arriving demo_leased !! "0"%string = Some r).
  { vm_compute. eauto. }
  destruct Hr as [r Hr].
  destruct (complete_needs_the_lease demo_queue "0" (json_dumps demo_data) []
              (VStr "next") VNone demo_put) as [Hrefused _].
  destruct (complete_needs_the_lease demo_queue "0" (json_dumps demo_data) []
              (VStr "next") VNone demo_leased) as [_ Hgranted].
  destruct (complete_needs_the_lease demo_queue "0" (json_dumps demo_data) []
              VNone VNone demo_leased) as [_ Hretired].
  destruct (Hgranted r Hr Hy) as (_ & _ & Hnext).
  destruct (Hnext "next"%string eq_refl ltac:(discriminate) eq_refl)
    as [Hres Hafter].
  destruct (Hretired r Hr Hy) as (Hdone & _).
  destruct (Hdone eq_refl) as [_ Hgone].
  unfold demo_job.
  split; [exact Hn|]. split; [exact (proj1 (Hrefused Hn))|].
  split; [exact Hy|]. split; [exact Hres|]. split.
  - rewrite Hafter, lookup_insert_eq. reflexivity.
  - rewrite Hgone, lookup_insert_eq. reflexivity.
Defined.

Lemma fail_in_any_state_witness :
  Engine.leased_by "0" (Queue.worker demo_queue) (arriving demo_put) = false
  /\ (Queue.fail demo_queue demo_job (VStr "bad input") (VStr "boom")
                 demo_put).1 = Ok (VStr "0")
  /\ (Queue.fail demo_queue demo_job (VStr "bad input") (VStr "boom")
                 demo_leased).1 = Ok (VStr "0")
  /\ (Queue.fail demo_queue demo_job (VStr "bad input") (VStr "boom")
                 demo_world).1 = Ok (VBool false).
Proof.
  assert (Hp : exists r, arriving demo_put !! "0"%string = Some r).
  { vm_compute. eauto. }
  assert (Hl : exists r, arriving demo_leased !! "0"%string = Some r).
  { vm_compute. eauto. }
  destruct Hp as [rp Hp]. destruct Hl as [rl Hl].
  destruct (fail_in_any_state demo_queue "0" (json_dumps demo_data) []
              "bad input" "boom" demo_put) as (_ & Hknown & _).
  destruct (fail_in_any_state demo_queue "0" (json_dumps demo_data) []
              "bad input" "boom" demo_leased) as (_ & Hknown' & _).
  destruct (fail_in_any_state demo_queue "0" (json_dumps demo_data) []
              "bad input" "boom" demo_world) as (_ & _ & Hunknown).
  unfold demo_job.
  split; [vm_compute; reflexivity|].
  split; [exact (proj1 (Hknown rp Hp ltac:(discriminate)))|].
  split; [exact (proj1 (Hknown' rl Hl ltac:(discriminate)))|].
  exact (proj1 (Hunknown eq_refl)).
Defined.

Lemma retries_budget_outlasts_its_count_witness :
  Engine.r_state
    (Engine.expire_all "testing" "worker-1" [(260%float, 300%float)]
                       demo_record) = Engine.Waiting
  /\ Engine.r_state
       (Engine.expire_all "testing" "worker-1"
          [(260%float, 300%float); (560%float, 600%float)] demo_record)
     = Engine.Failed
         (Engine.mkFailure "retries exceeded" "" (json_dumps demo_data)).
Proof.
  assert (Hb : forallb Engine.budget_ok
                 [Engine.Put "testing" "0" (json_dumps demo_data) 0%float
                    (-1) (json_dumps (VList [])) 0%float 1;
                  Engine.Pop "testing" "worker-1" 1 100%float 260%float]
               = true) by reflexivity.
  assert (H1 : Forall (fun t : float * float => PrimFloat.ltb t.1 t.2 = true)
                 [(260%float, 300%float)]).
  { repeat constructor. }
  assert (H2 : Forall (fun t : float * float => PrimFloat.ltb t.1 t.2 = true)
                 [(260%float, 300%float); (560%float, 600%float)]).
  { repeat constructor. }
  destruct (retries_budget_outlasts_its_count "testing" "worker-1"
              demo_record _ _ eq_refl eq_refl ltac:(simpl; lia) H1 Hb)
    as (_ & _ & Hone & _).
  destruct (retries_budget_outlasts_its_count "testing" "worker-1"
              demo_record _ _ eq_refl eq_refl ltac:(simpl; lia) H2 Hb)
    as (_ & _ & _ & Htwo & _).
  split.
  - apply Hone. simpl. lia.
  - apply Htwo. reflexivity.
Defined.

(** C8 as stated, with failure after exactly [retries] expirations, does
    not hold of the job of the run above: put with [retries=1], it is not
    failed after one lease expiration but waiting with no retry left; the
    second expiration fails it. *)
Lemma one_retry_outlasts_one_expiry :
  (Engine.retries_exceeded <$> store demo_expired_once !! "0"%string)
  = Some false
  /\ (Engine.r_state <$> store demo_expired_once !! "0"%string)
     = Some Engine.Waiting
  /\ (Engine.r_remaining <$> store demo_expired_once !! "0"%string)
     = Some 0
  /\ (Engine.retries_exceeded <$> store demo_expired_twice !! "0"%string)
     = Some true.
Proof. vm_compute. repeat split. Qed.

(** * More on the methods, for every engine *)

Section Replies.

Context {S : Type} `{Client S}.

Variable float_of_str : string -> option float.

Lemma stats_run (self : Queue.t) (date : value) (w : World S) :
  let args :=
    [VStr (Queue.name self);
     if truthy date then date else VFloat (clock w (ticks w))] in
  Queue.stats self date w =
    (json_loads (run_script SStats [] args (arriving w)).1,
     after_call w (if truthy date then ticks w else Datatypes.S (ticks w))
                (drawn w) SStats [] args).
Proof.
  cbv zeta. unfold Queue.stats.
  destruct (truthy date);
    unfold bind, ret, time_time, _stats, call, lift, after_call, arriving;
    simpl; destruct (run_script SStats _ _ _) as [r s']; reflexivity.
Qed.

(** X1: [stats] sends the queue's name and the date, reading the clock
    only when the date is false ([None], [0], [0.0]), in which case the
    current time is sent in its place: day 0 cannot be asked for.  The
    result is the decoded reply; a reply of [None] raises [TypeError]. *)
Theorem stats_date_or_clock (self : Queue.t) (date : value) (w : World S) :
  let sends :=
    Eval SStats []
      [VStr (Queue.name self);
       if truthy date then date else VFloat (clock w (ticks w))] in
  let reply :=
    (run_script SStats []
       [VStr (Queue.name self);
        if truthy date then date else VFloat (clock w (ticks w))]
       (arriving w)).1 in
  sent (Queue.stats self date w).2 = sent w ++ [sends]
  /\ ticks (Queue.stats self date w).2 =
       (if truthy date then ticks w else Datatypes.S (ticks w))
  /\ (Queue.stats self date w).1 = json_loads reply
  /\ (forall v, reply = json_dumps v -> (Queue.stats self date w).1 = Ok v)
  /\ (reply = VNone -> (Queue.stats self date w).1 = Raise TypeError)
  /\ Queue.stats self (VInt 0) w = Queue.stats self VNone w
  /\ Queue.stats self (VFloat 0%float) w = Queue.stats self VNone w.
Proof.
  cbv zeta. rewrite !stats_run. cbv zeta. cbn [fst snd].
  unfold after_call. cbn [sent ticks].
  repeat split; try reflexivity.
  - intros v ->. reflexivity.
  - intros ->. reflexivity.
Qed.

(** X2: [complete] sends the next queue and the delay together or not
    at all: with a next queue that is false ([None], the empty string) a
    delay is dropped, and the call is the one without either; with a next
    queue, a delay of 0 is the delay left out, and the request has seven
    arguments instead of five. *)
Theorem complete_drops_delay_without_next (self : Queue.t) (job : Job)
    (next delay : value) (w : World S) :
  (truthy next = false ->
   Queue.complete self job next delay w =
     Queue.complete self job VNone VNone w
   /\ sent (Queue.complete self job next delay w).2 =
        sent w ++
        [Eval SComplete []
           [job_id job; VStr (Queue.worker self); VStr (Queue.name self);
            VFloat (clock w (ticks w)); json_dumps (job_data job)]])
  /\ (truthy next = true ->
      Queue.complete self job next (VInt 0) w =
        Queue.complete self job next VNone w
      /\ sent (Queue.complete self job next delay w).2 =
           sent w ++
           [Eval SComplete []
              [job_id job; VStr (Queue.worker self); VStr (Queue.name self);
               VFloat (clock w (ticks w)); json_dumps (job_data job);
               next; py_or delay (VInt 0)]]).
Proof.
  split; intros Hn; rewrite !complete_run; cbv zeta;
    unfold complete_args, after_call; rewrite ?Hn; cbn [truthy];
    split; reflexivity.
Qed.

(** X3: [put] returns the engine's reply as it is, whereas [fail] and
    [complete] never raise and return the reply itself when it is true
    and [False] otherwise: their result is never [None], [0] or an empty
    string. *)
Theorem replies_are_normalised (self : Queue.t) (job : Job)
    (data priority tags delay retries t message next : value)
    (w : World S) :
  let failed :=
    (run_script SFail [] (fail_args self job t message w) (arriving w)).1 in
  let completed :=
    (run_script SComplete [] (complete_args self job next delay w)
                (arriving w)).1 in
  (Queue.put self data priority tags delay retries w).1 =
    Ok (run_script SPut [VStr (Queue.name self)]
          (put_args self data priority tags delay retries w)
          (arriving w)).1
  /\ (truthy failed = true ->
      (Queue.fail self job t message w).1 = Ok failed)
  /\ (truthy failed = false ->
      (Queue.fail self job t message w).1 = Ok (VBool false))
  /\ (truthy completed = true ->
      (Queue.complete self job next delay w).1 = Ok completed)
  /\ (truthy completed = false ->
      (Queue.complete self job next delay w).1 = Ok (VBool false))
  /\ (exists v,
        (Queue.fail self job t message w).1 = Ok v
        /\ truthy v = truthy failed
        /\ (truthy v = true \/ v = VBool false))
  /\ (exists v,
        (Queue.complete self job next delay w).1 = Ok v
        /\ truthy v = truthy completed
        /\ (truthy v = true \/ v = VBool false)).
Proof.
  cbv zeta. rewrite put_run, fail_run, complete_run. cbv zeta. cbn [fst].
  split; [reflexivity|]. unfold py_or.
  split; [by intros ->|]. split; [by intros ->|].
  split; [by intros ->|]. split; [by intros ->|].
  split; eexists; (split; [reflexivity|]);
    match goal with
    | |- context [if truthy ?r then _ else _] => destruct (truthy r) eqn:E
    end; rewrite ?E; auto.
Qed.

(** X4: the result of [heartbeat] by the engine's reply: 0.0 for every
    false reply ([None], [False], [0], the empty string, a negative
    zero); the reply itself for any other float; the nearest float for an
    integer other than 0 whose nearest float is finite (below
    2^1024 - 2^970 in absolute value) and [OverflowError] for any other;
    [TypeError] for a list that is not empty. *)
Theorem heartbeat_result_by_reply (self : Queue.t) (job : Job)
    (w : World S) :
  let reply :=
    (run_script SHeartbeat [] (heartbeat_args self job w) (arriving w)).1 in
  let res := (Queue.heartbeat float_of_str self job w).1 in
  (truthy reply = false -> res = Ok 0%float)
  /\ (forall f, reply = VFloat f -> truthy reply = true -> res = Ok f)
  /\ (forall z, reply = VInt z -> z <> 0 ->
      res = if Z.abs z <? 2 ^ 1024 - 2 ^ 970 then Ok (float_of_Z z)
            else Raise OverflowError)
  /\ (forall x l, reply = VList (x :: l) -> res = Raise TypeError).
Proof.
  cbv zeta. rewrite heartbeat_run. cbv zeta. cbn [fst]. unfold py_or.
  repeat split.
  - intros ->. reflexivity.
  - intros f Hr Ht. rewrite Ht, Hr. reflexivity.
  - intros z Hr Hz. rewrite Hr. simpl.
    destruct (Z.eqb_spec z 0); [done|reflexivity].
  - intros x l ->. reflexivity.
Qed.

(** X12: [fail] and [heartbeat] do not say which queue they come from:
    through two queue objects of the same worker they are the same call,
    whatever the names.  [complete] does send the name. *)
Theorem fail_and_heartbeat_ignore_the_queue_name
    (name1 name2 worker : string) (hb : Z) (job : Job)
    (t message next delay : value) (w : World S) :
  Queue.fail (Queue.mk name1 worker hb) job t message w =
    Queue.fail (Queue.mk name2 worker hb) job t message w
  /\ Queue.heartbeat float_of_str (Queue.mk name1 worker hb) job w =
       Queue.heartbeat float_of_str (Queue.mk name2 worker hb) job w
  /\ (name1 <> name2 ->
      sent (Queue.complete (Queue.mk name1 worker hb) job next delay w).2 <>
        sent (Queue.complete (Queue.mk name2 worker hb) job next delay w).2).
Proof.
  split; [reflexivity|]. split; [reflexivity|].
  intros Hne. rewrite !complete_run. cbv zeta. unfold after_call.
  cbn [snd sent]. intros Heq. apply app_inv_head in Heq.
  unfold complete_args in Heq. simpl in Heq. congruence.
Qed.

End Replies.

(** * Replies that decode and replies that do not *)

Lemma jobs_of_items_cons (item : value) (items : list value) :
  Queue.jobs_of_items (item :: items) =
    match decode_item item with
    | Raise e => Raise e
    | Ok job =>
        match Queue.jobs_of_items items with
        | Raise e => Raise e
        | Ok jobs => Ok (job :: jobs)
        end
    end.
Proof.
  simpl. unfold decode_item.
  destruct (json_loads item) as [kwargs|e]; [|reflexivity].
  by destruct (Job_init kwargs).
Qed.

Lemma jobs_of_items_ok (items : list value) (jobs : list Job) :
  Queue.jobs_of_items items = Ok jobs <->
  Forall2 (fun item job => decode_item item = Ok job) items jobs.
Proof.
  revert jobs. induction items as [|item items IH]; intros jobs.
  - simpl. split.
    + intros [= <-]. constructor.
    + intros Hf. by apply Forall2_nil_inv_l in Hf as ->.
  - rewrite jobs_of_items_cons. split.
    + destruct (decode_item item) as [job|e] eqn:Hd; [|discriminate].
      destruct (Queue.jobs_of_items items) as [rest|e]; [|discriminate].
      intros [= <-]. constructor; [exact Hd|]. by apply IH.
    + intros Hf.
      apply Forall2_cons_inv_l in Hf as (j & js & Hj & Hjs & ->).
      rewrite Hj. apply IH in Hjs. by rewrite Hjs.
Qed.

Lemma jobs_of_items_raise (items : list value) :
  raises (Queue.jobs_of_items items) <->
  Exists (fun item => raises (decode_item item)) items.
Proof.
  induction items as [|item items IH].
  - simpl. split; [done|]. intros Hex. by apply Exists_nil in Hex.
  - rewrite jobs_of_items_cons, Exists_cons.
    destruct (decode_item item) as [job|e]; simpl; [|tauto].
    destruct (Queue.jobs_of_items items) as [rest|e]; simpl in *; tauto.
Qed.

Section Decoding.

Context {S : Type} `{Client S}.

(** X5: when [pop] or [peek] returns a list, its jobs are the items of
    the engine's reply, each decoded, one for one and in the order of the
    reply: no item is dropped, repeated or moved. *)
Theorem pop_list_matches_reply (self : Queue.t) (count : value)
    (w : World S) (jobs : list Job) :
  let popped_reply :=
    (run_script SPop [VStr (Queue.name self)] (pop_args self count w)
                (arriving w)).1 in
  let peeked_reply :=
    (run_script SPeek [VStr (Queue.name self)] (peek_args count w)
                (arriving w)).1 in
  ((Queue.pop self count w).1 = Ok (OJobs jobs) ->
   exists items,
     Queue.py_iter popped_reply = Ok items
     /\ Forall2 (fun item job => decode_item item = Ok job) items jobs
     /\ List.length jobs = List.length items)
  /\ ((Queue.peek self count w).1 = Ok (OJobs jobs) ->
      exists items,
        Queue.py_iter peeked_reply = Ok items
        /\ Forall2 (fun item job => decode_item item = Ok job) items jobs
        /\ List.length jobs = List.length items).
Proof.
  assert (Hfirst : forall l js, Queue.first_or_None l <> Ok (OJobs js)).
  { intros l js. unfold Queue.first_or_None, obj_or.
    destruct (truthy_obj (OVal (VInt (Z.of_nat (List.length l))))) eqn:Hn.
    - destruct l as [|j l]; [discriminate|]. simpl. discriminate.
    - rewrite Hn. discriminate. }
  assert (Hlist : forall reply,
            match Queue.jobs_of reply with
            | Raise e => Raise e
            | Ok results =>
                if is_None count
                then Queue.first_or_None results
                else Ok (OJobs results)
            end = Ok (OJobs jobs) ->
            exists items,
              Queue.py_iter reply = Ok items
              /\ Forall2 (fun item job => decode_item item = Ok job)
                         items jobs
              /\ List.length jobs = List.length items).
  { intros reply. unfold Queue.jobs_of.
    destruct (Queue.py_iter reply) as [items|e]; [|discriminate].
    destruct (Queue.jobs_of_items items) as [results|e] eqn:Hres;
      [|discriminate].
    destruct (is_None count).
    - intros Hbad. by apply Hfirst in Hbad.
    - intros [= <-]. apply jobs_of_items_ok in Hres.
      exists items. split; [reflexivity|]. split; [exact Hres|].
      symmetry. by eapply Forall2_length. }
  cbv zeta. rewrite pop_run, peek_run. cbv zeta. split; intros Hres.
  - apply Hlist. by destruct (Queue.jobs_of _); [destruct (is_None count)|].
  - apply Hlist. by destruct (Queue.jobs_of _); [destruct (is_None count)|].
Qed.

(** X6: [pop] decodes all or nothing, after the engine has served the
    request: when one item of the reply does not decode, the call
    raises and returns none of the jobs, while the store is the one the
    engine left and the request is on the log. *)
Theorem pop_raises_after_the_engine_served (self : Queue.t) (count : value)
    (w : World S) :
  let served :=
    run_script SPop [VStr (Queue.name self)] (pop_args self count w)
               (arriving w) in
  store (Queue.pop self count w).2 = served.2
  /\ sent (Queue.pop self count w).2 =
       sent w ++ [Eval SPop [VStr (Queue.name self)] (pop_args self count w)]
  /\ (forall items,
        Queue.py_iter served.1 = Ok items ->
        Exists (fun item => raises (decode_item item)) items ->
        raises (Queue.pop self count w).1).
Proof.
  cbv zeta. rewrite pop_run. cbv zeta.
  assert (Hw : forall (r : result (list Job)) (w' : World S),
            (match r with
             | Raise e => (Raise e, w')
             | Ok results =>
                 if is_None count
                 then (Queue.first_or_None results, w')
                 else (Ok (OJobs results), w')
             end).2 = w').
  { intros [results|e] w'; [destruct (is_None count)|]; reflexivity. }
  rewrite Hw. unfold after_call. cbn [store sent]. repeat split.
  intros items Hit Hex. unfold Queue.jobs_of. rewrite Hit.
  apply jobs_of_items_raise in Hex.
  by destruct (Queue.jobs_of_items items).
Qed.

End Decoding.

Lemma pop_list_matches_reply_witness :
  (Queue.pop demo_queue (VInt 1) demo_put).1 =
    Ok (OJobs [Engine.received
                 ("0"%string,
                  Engine.lease "worker-1" 260%float demo_record)])
  /\ exists items,
       Queue.py_iter
         (run_script SPop [VStr (Queue.name demo_queue)]
                     (pop_args demo_queue (VInt 1) demo_put)
                     (arriving demo_put)).1 = Ok items
       /\ List.length items = 1%nat.
Proof.
  assert (Hres : (Queue.pop demo_queue (VInt 1) demo_put).1 =
            Ok (OJobs [Engine.received
                         ("0"%string,
                          Engine.lease "worker-1" 260%float demo_record)]))
    by (vm_compute; reflexivity).
  split; [exact Hres|].
  destruct (pop_list_matches_reply demo_queue (VInt 1) demo_put
              [Engine.received
                 ("0"%string,
                  Engine.lease "worker-1" 260%float demo_record)])
    as [Hpop _].
  destruct (Hpop Hres) as (items & Hit & _ & Hlen).
  exists items. split; [exact Hit|]. by rewrite <- Hlen.
Defined.

Lemma pop_raises_after_the_engine_served_witness :
  raises (@Queue.pop unit echo_client demo_queue (VInt 2) echo_world).1
  /\ sent (@Queue.pop unit echo_client demo_queue (VInt 2) echo_world).2 =
       [Eval SPop [VStr "testing"]
          [VStr "worker-1"; VInt 2; VFloat 0%float; VFloat 160%float]].
Proof.
  destruct (@pop_raises_after_the_engine_served unit echo_client
              demo_queue (VInt 2) echo_world) as (_ & Hsent & Hraise).
  split.
  - eapply Hraise; [reflexivity|]. apply Exists_cons_hd. exact I.
  - rewrite Hsent. vm_compute. reflexivity.
Defined.

(** * The sum [__len__] returns and the keys it counts *)

Lemma py_sum_ints (acc : Z) (zs : list Z) :
  py_sum acc (map VInt zs) = Ok (acc + foldr Z.add 0 zs).
Proof.
  revert acc. induction zs as [|z zs IH]; intros acc; simpl.
  - by rewrite Z.add_0_r.
  - rewrite IH. f_equal. lia.
Qed.

Lemma py_sum_None (acc : Z) (l : list value) :
  In VNone l -> py_sum acc l = Raise TypeError.
Proof.
  revert acc. induction l as [|v l IH]; intros acc Hin; [done|].
  destruct Hin as [->|Hin]; [reflexivity|].
  destruct v; simpl; auto.
Qed.

Section Length.

Context {S : Type} `{Client S}.

(** X7: [__len__] returns the plain sum of the integers the pipeline
    replies with, however many they are; a [None] among the replies
    raises [TypeError].  Either way the pipeline has been executed. *)
Theorem len_returns_the_sum_of_the_replies (self : Queue.t) (w : World S) :
  let served := run_pipeline (len_cmds self) (arriving w) in
  (forall zs, served.1 = map VInt zs ->
     (Queue.__len__ self w).1 = Ok (VInt (foldr Z.add 0 zs)))
  /\ (In VNone served.1 -> (Queue.__len__ self w).1 = Raise TypeError)
  /\ store (Queue.__len__ self w).2 = served.2.
Proof.
  cbv zeta. rewrite len_run. cbv zeta. repeat split.
  - intros zs ->. by rewrite py_sum_ints.
  - intros Hin. by rewrite py_sum_None.
  - by destruct (py_sum 0 _).
Qed.

(** X8: the three counts of [__len__] go to the keys of the queue's
    three sets, and no two sets share a key: not two sets of one queue,
    and not sets of two queues, whatever their names. *)
Theorem set_keys_never_collide (self : Queue.t) (w : World S)
    (name1 name2 : string) (z1 z2 : zset) :
  sent (Queue.__len__ self w).2 =
    sent w ++
    [Exec (map (fun z => ZCARD (zset_key (Queue.name self) z))
               [Locks; Work; Scheduled])]
  /\ (name1 <> name2 \/ z1 <> z2 ->
      zset_key name1 z1 <> zset_key name2 z2).
Proof.
  split.
  - rewrite len_run. cbv zeta. by destruct (py_sum 0 _).
  - intros Hne. apply String.eqb_neq. unfold zset_key.
    destruct z1, z2; cbn [zset_suffix];
      rewrite ?key_locks_work, ?key_locks_scheduled, ?key_work_locks,
        ?key_work_scheduled, ?key_scheduled_locks, ?key_scheduled_work;
      try reflexivity;
      rewrite key_same_suffix; apply String.eqb_neq;
      destruct Hne as [Hn|Hz]; congruence.
Qed.

End Length.

Lemma len_returns_the_sum_of_the_replies_witness :
  (Queue.__len__ demo_queue demo_leased).1 = Ok (VInt 1)
  /\ (@Queue.__len__ unit echo_client demo_queue echo_world).1 =
       Raise TypeError.
Proof.
  destruct (len_returns_the_sum_of_the_replies demo_queue demo_leased)
    as (Hsum & _ & _).
  destruct (@len_returns_the_sum_of_the_replies unit echo_client
              demo_queue echo_world) as (_ & Hnone & _).
  split.
  - apply (Hsum [1; 0; 0]). vm_compute. reflexivity.
  - apply Hnone. left. reflexivity.
Defined.

Lemma set_keys_never_collide_witness :
  zset_key "a-locks" Work <> zset_key "a" Locks
  /\ zset_key "a" Work <> zset_key "b" Work.
Proof.
  split.
  - apply (set_keys_never_collide demo_queue demo_world). right. discriminate.
  - apply (set_keys_never_collide demo_queue demo_world). left. discriminate.
Defined.

(** * Sequences of calls *)

Section Sequences.

Context {S : Type} `{Client S}.

Variable float_of_str : string -> option float.

Lemma snd_of_result {A B} (r : result A) (f : A -> result B) (w : World S) :
  (match r with
   | Raise e => (Raise e, w)
   | Ok a => (f a, w)
   end).2 = w.
Proof. by destruct r. Qed.

Lemma snd_of_listing (r : result (list Job)) (count : value) (w : World S) :
  (match r with
   | Raise e => (Raise e, w)
   | Ok results =>
       if is_None count
       then (Queue.first_or_None results, w)
       else (Ok (OJobs results), w)
   end).2 = w.
Proof. destruct r; [destruct (is_None count)|]; reflexivity. Qed.

(** Every call leaves the world one round trip further. *)
Lemma perform_step (self : Queue.t) (w : World S) (c : invocation) :
  perform float_of_str self w c =
    mkWorld (clock w) (clock_reads c + ticks w) (uuids w)
            (uuid_draws c + drawn w) (others w) (Datatypes.S (trips w))
            (serve (request_of self w c) (arriving w))
            (sent w ++ [request_of self w c]).
Proof.
  destruct c; cbn [perform request_of clock_reads uuid_draws serve].
  - by rewrite put_run.
  - rewrite pop_run. cbv zeta. by rewrite snd_of_listing.
  - rewrite peek_run. cbv zeta. by rewrite snd_of_listing.
  - by rewrite fail_run.
  - by rewrite heartbeat_run.
  - by rewrite complete_run.
  - rewrite stats_run. cbv zeta. cbn [snd]. unfold after_call.
    by destruct (truthy date).
  - rewrite len_run. cbv zeta. by destruct (py_sum 0 _).
Qed.

Lemma perform_all_cons (self : Queue.t) (w : World S) (c : invocation)
    (cs : list invocation) :
  perform_all float_of_str self (c :: cs) w =
    perform_all float_of_str self cs (perform float_of_str self w c).
Proof. reflexivity. Qed.

Lemma calls_make_one_request_each_aux (self : Queue.t)
    (cs : list invocation) (w : World S) :
  sent (perform_all float_of_str self cs w) =
    sent w ++ requests_of float_of_str self w cs.
Proof.
  revert w. induction cs as [|c cs IH]; intros w.
  - simpl. by rewrite app_nil_r.
  - rewrite perform_all_cons. cbn [requests_of].
    rewrite IH, perform_step. cbn [sent]. by rewrite <- app_assoc.
Qed.

(** X9: in any sequence of calls each call makes exactly one round trip,
    whether it returns or raises: the log grows by one request per call,
    in the order of the calls, and the store at the end is what the
    engine makes of these requests, the other clients acting in
    between.  Nothing else reaches the engine. *)
Theorem calls_make_one_request_each (self : Queue.t)
    (cs : list invocation) (w : World S) :
  let w' := perform_all float_of_str self cs w in
  let log := requests_of float_of_str self w cs in
  sent w' = sent w ++ log
  /\ List.length log = List.length cs
  /\ trips w' = (List.length cs + trips w)%nat
  /\ store w' = replay (others w) (trips w) log (store w).
Proof.
  revert w. induction cs as [|c cs IH]; intros w; cbv zeta.
  - simpl. by rewrite app_nil_r.
  - rewrite perform_all_cons. cbn [requests_of List.length replay].
    destruct (IH (perform float_of_str self w c)) as (Hs & Hl & Ht & Hst).
    cbv zeta in Hs, Hl, Ht, Hst. rewrite Hs, Hl, Ht, Hst.
    rewrite perform_step. cbn [sent trips others store arriving].
    rewrite <- app_assoc. repeat split; try reflexivity; lia.
Qed.

(** X10: what a sequence of calls takes from the clock and from the uuid
    generator: two readings per [pop], none for [__len__] and for a
    [stats] with a date, one for every other call; one uuid per [put]
    and none otherwise.  The clock, the generator and the other clients
    are left as they were. *)
Theorem calls_account_for_clock_and_uuids (self : Queue.t)
    (cs : list invocation) (w : World S) :
  let w' := perform_all float_of_str self cs w in
  ticks w' = (sum_list (clock_reads <$> cs) + ticks w)%nat
  /\ drawn w' = (sum_list (uuid_draws <$> cs) + drawn w)%nat
  /\ clock w' = clock w
  /\ uuids w' = uuids w
  /\ others w' = others w.
Proof.
  revert w. induction cs as [|c cs IH]; intros w; cbv zeta.
  - done.
  - rewrite perform_all_cons.
    destruct (IH (perform float_of_str self w c)) as (Ht & Hd & Hc & Hu & Ho).
    cbv zeta in Ht, Hd, Hc, Hu, Ho. rewrite Ht, Hd, Hc, Hu, Ho.
    rewrite perform_step. cbn [ticks drawn clock uuids others].
    rewrite !fmap_cons. cbn [sum_list sum_list_with id].
    repeat split; try reflexivity; lia.
Qed.

Lemma put_ids_of_requests (self : Queue.t) (cs : list invocation)
    (w : World S) :
  put_ids (requests_of float_of_str self w cs) =
    map (fun k => VStr (uuids w k))
        (seq (drawn w) (sum_list (uuid_draws <$> cs))).
Proof.
  revert w. induction cs as [|c cs IH]; intros w; [reflexivity|].
  cbn [requests_of]. unfold put_ids in *. cbn [omap list_omap].
  rewrite IH, perform_step. cbn [uuids drawn].
  rewrite fmap_cons. cbn [sum_list sum_list_with id].
  destruct c; reflexivity.
Qed.

(** X11: as long as the uuid generator never repeats itself, no two
    [put]s of a sequence of calls send the same job id, whatever other
    calls come between them; and there are as many ids on the log as
    there were [put]s. *)
Theorem put_ids_never_repeat (self : Queue.t) (cs : list invocation)
    (w : World S) :
  Inj (=) (=) (uuids w) ->
  sent w = [] ->
  let w' := perform_all float_of_str self cs w in
  NoDup (put_ids (sent w'))
  /\ List.length (put_ids (sent w')) = sum_list (uuid_draws <$> cs).
Proof.
  intros Hinj Hfresh w'. subst w'.
  rewrite calls_make_one_request_each_aux, Hfresh, app_nil_l.
  rewrite put_ids_of_requests. split.
  - apply NoDup_fmap_2; [|apply NoDup_seq].
    intros a b [= Hab]. by apply Hinj.
  - by rewrite length_map, length_seq.
Qed.

End Sequences.

(** * Runs of the further properties *)

Lemma stats_date_or_clock_witness :
  (@Queue.stats unit (canned_client (json_dumps demo_data)) demo_queue
                VNone echo_world).1 = Ok demo_data
  /\ (@Queue.stats unit (canned_client VNone) demo_queue
                   (VInt 15000) echo_world).1 = Raise TypeError.
Proof.
  destruct (@stats_date_or_clock unit (canned_client (json_dumps demo_data))
              demo_queue VNone echo_world) as (_ & _ & _ & Hjson & _).
  destruct (@stats_date_or_clock unit (canned_client VNone)
              demo_queue (VInt 15000) echo_world)
    as (_ & _ & _ & _ & Hnone & _).
  split.
  - apply Hjson. reflexivity.
  - apply Hnone. reflexivity.
Defined.

Lemma complete_drops_delay_without_next_witness :
  truthy (VStr "") = false
  /\ Queue.complete demo_queue demo_job (VStr "") (VInt 30) demo_leased =
       Queue.complete demo_queue demo_job VNone VNone demo_leased
  /\ truthy (VStr "next") = true
  /\ Queue.complete demo_queue demo_job (VStr "next") (VInt 0) demo_leased =
       Queue.complete demo_queue demo_job (VStr "next") VNone demo_leased.
Proof.
  destruct (complete_drops_delay_without_next demo_queue demo_job
              (VStr "") (VInt 30) demo_leased) as [Hwithout _].
  destruct (complete_drops_delay_without_next demo_queue demo_job
              (VStr "next") (VInt 30) demo_leased) as [_ Hwith].
  split; [reflexivity|]. split; [exact (proj1 (Hwithout eq_refl))|].
  split; [reflexivity|]. exact (proj1 (Hwith eq_refl)).
Defined.

Lemma heartbeat_result_by_reply_witness :
  (@Queue.heartbeat unit (canned_client VNone) no_float demo_queue demo_job
                    echo_world).1 = Ok 0%float
  /\ (@Queue.heartbeat unit (canned_client (VFloat 360%float)) no_float
                       demo_queue demo_job echo_world).1 = Ok 360%float
  /\ (@Queue.heartbeat unit (canned_client (VInt 360)) no_float
                       demo_queue demo_job echo_world).1 = Ok 360%float
  /\ (@Queue.heartbeat unit (canned_client (VList [VInt 360])) no_float
                       demo_queue demo_job echo_world).1 = Raise TypeError.
Proof.
  destruct (@heartbeat_result_by_reply unit (canned_client VNone) no_float
              demo_queue demo_job echo_world) as (Hfalse & _).
  destruct (@heartbeat_result_by_reply unit (canned_client (VFloat 360%float))
              no_float demo_queue demo_job echo_world) as (_ & Hfloat & _).
  destruct (@heartbeat_result_by_reply unit (canned_client (VInt 360))
              no_float demo_queue demo_job echo_world) as (_ & _ & Hint & _).
  destruct (@heartbeat_result_by_reply unit (canned_client (VList [VInt 360]))
              no_float demo_queue demo_job echo_world) as (_ & _ & _ & Hlist).
  split; [apply Hfalse; reflexivity|].
  split; [apply Hfloat; reflexivity|].
  split.
  - rewrite (Hint 360 eq_refl ltac:(discriminate)). vm_compute. reflexivity.
  - apply (Hlist (VInt 360) []). reflexivity.
Defined.

Lemma put_ids_never_repeat_witness :
  Inj (=) (=) (uuids demo_world)
  /\ sent demo_world = []
  /\ put_ids (sent (perform_all no_float demo_queue demo_calls demo_world)) =
       [VStr "0"; VStr "1"]
  /\ NoDup (put_ids
              (sent (perform_all no_float demo_queue demo_calls demo_world))).
Proof.
  assert (Hinj : Inj (=) (=) (uuids demo_world)).
  { change (uuids demo_world) with (pretty : nat -> string). apply _. }
  split; [exact Hinj|]. split; [reflexivity|].
  split; [vm_compute; reflexivity|].
  exact (proj1 (put_ids_never_repeat no_float demo_queue demo_calls
                  demo_world Hinj eq_refl)).
Defined.

Lemma fail_and_heartbeat_ignore_the_queue_name_witness :
  "a"%string <> "b"%string
  /\ sent (Queue.complete (Queue.mk "a" "worker-1" 60) demo_job VNone VNone
                          demo_leased).2 <>
     sent (Queue.complete (Queue.mk "b" "worker-1" 60) demo_job VNone VNone
                          demo_leased).2.
Proof.
  assert (Hne : "a"%string <> "b"%string) by discriminate.
  split; [exact Hne|].
  destruct (fail_and_heartbeat_ignore_the_queue_name no_float "a" "b"
              "worker-1" 60 demo_job VNone VNone VNone VNone demo_leased)
    as (_ & _ & Hcomplete).
  exact (Hcomplete Hne).
Defined.

(** X13: [put], [peek], [stats] and [__len__] name neither the worker
    nor a lease duration: through two queue objects of the same name they
    are the same call, whoever the workers are.  [pop] does send the
    worker. *)
Theorem anonymous_calls_ignore_the_worker
    (S : Type) (C : Client S) (name worker1 worker2 : string) (hb1 hb2 : Z)
    (data priority tags delay retries count date : value) (w : World S) :
  Queue.put (Queue.mk name worker1 hb1) data priority tags delay retries w =
    Queue.put (Queue.mk name worker2 hb2) data priority tags delay retries w
  /\ Queue.peek (Queue.mk name worker1 hb1) count w =
       Queue.peek (Queue.mk name worker2 hb2) count w
  /\ Queue.stats (Queue.mk name worker1 hb1) date w =
       Queue.stats (Queue.mk name worker2 hb2) date w
  /\ Queue.__len__ (Queue.mk name worker1 hb1) w =
       Queue.__len__ (Queue.mk name worker2 hb2) w
  /\ (worker1 <> worker2 ->
      sent (Queue.pop (Queue.mk name worker1 hb1) count w).2 <>
        sent (Queue.pop (Queue.mk name worker2 hb1) count w).2).
Proof.
  do 4 (split; [reflexivity|]).
  intros Hne Heq. rewrite !pop_run in Heq. cbv zeta in Heq.
  rewrite !snd_of_listing in Heq. unfold after_call in Heq.
  cbn [sent] in Heq. apply app_inv_head in Heq.
  unfold pop_args in Heq. simpl in Heq. congruence.
Qed.

Lemma anonymous_calls_ignore_the_worker_witness :
  "worker-1"%string <> "worker-2"%string
  /\ sent (Queue.pop (Queue.mk "testing" "worker-1" 60) VNone demo_put).2 <>
     sent (Queue.pop (Queue.mk "testing" "worker-2" 60) VNone demo_put).2.
Proof.
  assert (Hne : "worker-1"%string <> "worker-2"%string) by discriminate.
  split; [exact Hne|].
  destruct (anonymous_calls_ignore_the_worker _ _ "testing" "worker-1"
              "worker-2" 60 60 VNone VNone VNone VNone VNone VNone VNone
              demo_put) as (_ & _ & _ & _ & Hpop).
  exact (Hpop Hne).
Defined.

Lemma replies_are_normalised_witness :
  (@Queue.fail unit (canned_client (VStr "0")) demo_queue demo_job
               (VStr "bad input") (VStr "boom") echo_world).1 = Ok (VStr "0")
  /\ (@Queue.fail unit (canned_client VNone) demo_queue demo_job
                  (VStr "bad input") (VStr "boom") echo_world).1
     = Ok (VBool false)
  /\ (@Queue.complete unit (canned_client (VInt 1)) demo_queue demo_job
                      VNone VNone echo_world).1 = Ok (VInt 1)
  /\ (@Queue.complete unit (canned_client (VInt 0)) demo_queue demo_job
                      VNone VNone echo_world).1 = Ok (VBool false).
Proof.
  destruct (@replies_are_normalised unit (canned_client (VStr "0"))
              demo_queue demo_job VNone VNone VNone VNone VNone
              (VStr "bad input") (VStr "boom") VNone echo_world)
    as (_ & Hfail & _).
  destruct (@replies_are_normalised unit (canned_client VNone)
              demo_queue demo_job VNone VNone VNone VNone VNone
              (VStr "bad input") (VStr "boom") VNone echo_world)
    as (_ & _ & Hrefused & _).
  destruct (@replies_are_normalised unit (canned_client (VInt 1))
              demo_queue demo_job VNone VNone VNone VNone VNone
              (VStr "bad input") (VStr "boom") VNone echo_world)
    as (_ & _ & _ & Hdone & _).
  destruct (@replies_are_normalised unit (canned_client (VInt 0))
              demo_queue demo_job VNone VNone VNone VNone VNone
              (VStr "bad input") (VStr "boom") VNone echo_world)
    as (_ & _ & _ & _ & Hnot & _).
  split; [exact (Hfail eq_refl)|]. split; [exact (Hrefused eq_refl)|].
  split; [exact (Hdone eq_refl)|]. exact (Hnot eq_refl).
Defined.

(** * Counts of zero and of [None], result by result *)

Lemma first_or_None_head (results : list Job) :
  Queue.first_or_None results =
    Ok (match results with
        | [] => OVal VNone
        | j :: _ => OJob j
        end).
Proof.
  destruct results as [|j l]; [reflexivity|].
  unfold Queue.first_or_None. simpl List.length.
  rewrite Nat2Z.inj_succ. cbn [truthy_obj truthy].
  destruct (Z.eqb_spec (Z.succ (Z.of_nat (List.length l))) 0); [lia|].
  reflexivity.
Qed.

Lemma pop_engine_reply_None (self : Queue.t) (w : World Engine.t) :
  run_script SPop [VStr (Queue.name self)] (pop_args self VNone w)
             (arriving w) =
  Engine.pop (Queue.name self) (Queue.worker self) 1
             (clock w (ticks w))
             (PrimFloat.add (clock w (Datatypes.S (ticks w)))
                            (float_of_Z (Queue._hb self)))
             (arriving w).
Proof. reflexivity. Qed.

Lemma peek_engine_reply_None (self : Queue.t) (w : World Engine.t) :
  run_script SPeek [VStr (Queue.name self)] (peek_args VNone w)
             (arriving w) =
  Engine.peek (Queue.name self) 1 (clock w (ticks w)) (arriving w).
Proof. reflexivity. Qed.

(** C10: with [count=0], [pop] and [peek] ask the engine for 1 job and
    return a list: the items of the reply, each decoded, which against
    the engine are the first available job or none.  The result is such
    a list for every count but [None]; for [None], and only then, it is
    the first job of the reply, or [None] when the reply is empty. *)
Theorem count_zero_asks_for_one :
  (forall (S : Type) (C : Client S) (self : Queue.t) (count : value)
          (w : World S),
     let pop_reply :=
       (run_script SPop [VStr (Queue.name self)] (pop_args self count w)
                   (arriving w)).1 in
     let peek_reply :=
       (run_script SPeek [VStr (Queue.name self)] (peek_args count w)
                   (arriving w)).1 in
     sent (Queue.pop self (VInt 0) w).2 =
       sent w ++
       [Eval SPop [VStr (Queue.name self)]
          [VStr (Queue.worker self); VInt 1; VFloat (clock w (ticks w));
           VFloat (PrimFloat.add (clock w (Datatypes.S (ticks w)))
                                 (float_of_Z (Queue._hb self)))]]
     /\ sent (Queue.peek self (VInt 0) w).2 =
          sent w ++
          [Eval SPeek [VStr (Queue.name self)]
             [VInt 1; VFloat (clock w (ticks w))]]
     /\ (Queue.pop self count w).1 =
          match Queue.jobs_of pop_reply with
          | Raise e => Raise e
          | Ok results =>
              if is_None count
              then Queue.first_or_None results
              else Ok (OJobs results)
          end
     /\ (Queue.peek self count w).1 =
          match Queue.jobs_of peek_reply with
          | Raise e => Raise e
          | Ok results =>
              if is_None count
              then Queue.first_or_None results
              else Ok (OJobs results)
          end
     /\ (forall items jobs,
           Queue.py_iter pop_reply = Ok items ->
           Forall2 (fun item job => decode_item item = Ok job) items jobs ->
           (Queue.pop self count w).1 =
             match count with
             | VNone =>
                 match jobs with
                 | [] => Ok (OVal VNone)
                 | j :: _ => Ok (OJob j)
                 end
             | _ => Ok (OJobs jobs)
             end)
     /\ (forall items jobs,
           Queue.py_iter peek_reply = Ok items ->
           Forall2 (fun item job => decode_item item = Ok job) items jobs ->
           (Queue.peek self count w).1 =
             match count with
             | VNone =>
                 match jobs with
                 | [] => Ok (OVal VNone)
                 | j :: _ => Ok (OJob j)
                 end
             | _ => Ok (OJobs jobs)
             end))
  /\ (forall (j : Job) (l : list Job),
        Queue.first_or_None (j :: l) = Ok (OJob j))
  /\ Queue.first_or_None [] = Ok (OVal VNone)
  /\ (forall (self : Queue.t) (w : World Engine.t),
        exists l l',
          (Queue.pop self (VInt 0) w).1 = Ok (OJobs l)
          /\ (List.length l <= 1)%nat
          /\ (Queue.peek self (VInt 0) w).1 = Ok (OJobs l')
          /\ (List.length l' <= 1)%nat)
  /\ (forall (self : Queue.t) (w : World Engine.t),
        let ready :=
          Engine.available (Queue.name self) (clock w (ticks w))
                           (arriving w) in
        (Queue.pop self (VInt 0) w).1 =
          Ok (OJobs (map Engine.received (popped self (VInt 0) w)))
        /\ map fst (popped self (VInt 0) w) = take 1 (map fst ready)
        /\ (Queue.peek self (VInt 0) w).1 =
             Ok (OJobs (map Engine.received (take 1 ready)))
        /\ (Queue.pop self VNone w).1 =
             match popped self VNone w with
             | [] => Ok (OVal VNone)
             | e :: _ => Ok (OJob (Engine.received e))
             end
        /\ map fst (popped self VNone w) = take 1 (map fst ready)
        /\ (Queue.peek self VNone w).1 =
             match ready with
             | [] => Ok (OVal VNone)
             | e :: _ => Ok (OJob (Engine.received e))
             end).
Proof.
  assert (Hform : forall (reply : value) (count : value) items jobs,
            Queue.py_iter reply = Ok items ->
            Forall2 (fun item job => decode_item item = Ok job) items jobs ->
            match Queue.jobs_of reply with
            | Raise e => Raise e
            | Ok results =>
                if is_None count
                then Queue.first_or_None results
                else Ok (OJobs results)
            end =
            match count with
            | VNone =>
                match jobs with
                | [] => Ok (OVal VNone)
                | j :: _ => Ok (OJob j)
                end
            | _ => Ok (OJobs jobs)
            end).
  { intros reply count items jobs Hit Hdec. unfold Queue.jobs_of.
    rewrite Hit. apply jobs_of_items_ok in Hdec. rewrite Hdec.
    destruct count; cbn [is_None]; try reflexivity.
    rewrite first_or_None_head. by destruct jobs. }
  assert (Hfst : forall (jobs : list Job) (count : value) (w : World Engine.t),
            (if is_None count
             then (Queue.first_or_None jobs, w)
             else (Ok (OJobs jobs), w)).1 =
            if is_None count then Queue.first_or_None jobs
            else Ok (OJobs jobs)).
  { intros jobs count w. by destruct (is_None count). }
  split; [|split; [|split; [|split]]].
  - intros S C self count w. cbv zeta.
    rewrite !pop_run, !peek_run. cbv zeta. repeat split.
    + destruct (Queue.jobs_of _); reflexivity.
    + destruct (Queue.jobs_of _); reflexivity.
    + destruct (Queue.jobs_of _); [destruct (is_None count)|]; reflexivity.
    + destruct (Queue.jobs_of _); [destruct (is_None count)|]; reflexivity.
    + intros items jobs Hit Hdec. rewrite <- (Hform _ count items jobs Hit Hdec).
      destruct (Queue.jobs_of _); [destruct (is_None count)|]; reflexivity.
    + intros items jobs Hit Hdec. rewrite <- (Hform _ count items jobs Hit Hdec).
      destruct (Queue.jobs_of _); [destruct (is_None count)|]; reflexivity.
  - intros j l. by rewrite first_or_None_head.
  - reflexivity.
  - intros self w. eexists _, _.
    split; [apply pop_list|]. split.
    { unfold popped, Engine.selected. rewrite !length_map, length_take.
      change (asked (VInt 0)) with 1. lia. }
    split.
    { rewrite peek_run. cbv zeta. rewrite peek_engine_reply.
      unfold Engine.peek. cbn [fst]. rewrite jobs_of_serialised.
      reflexivity. }
    unfold Engine.selected. rewrite !length_map, length_take.
    change (asked (VInt 0)) with 1. lia.
  - intros self w ready.
    assert (Hids : forall count, asked count = 1 ->
              map fst (popped self count w) = take 1 (map fst ready)).
    { intros count Hc. unfold popped, Engine.selected. rewrite map_map.
      simpl. rewrite Hc. fold ready. by rewrite <- fmap_take. }
    split; [apply pop_list|].
    split; [by apply Hids|].
    split.
    { rewrite peek_run. cbv zeta. rewrite peek_engine_reply.
      unfold Engine.peek. cbn [fst]. by rewrite jobs_of_serialised. }
    split.
    { rewrite pop_run. cbv zeta. rewrite pop_engine_reply_None, pop_reply.
      rewrite jobs_of_serialised. cbn [is_None fst].
      rewrite first_or_None_head.
      change (map (fun e : string * Engine.record =>
                     (e.1, Engine.lease (Queue.worker self)
                             (PrimFloat.add
                                (clock w (Datatypes.S (ticks w)))
                                (float_of_Z (Queue._hb self))) e.2))
                  (Engine.selected (Queue.name self) 1
                     (clock w (ticks w)) (arriving w)))
        with (popped self VNone w).
      by destruct (popped self VNone w). }
    split; [by apply Hids|].
    rewrite peek_run. cbv zeta. rewrite peek_engine_reply_None.
    unfold Engine.peek. cbn [fst]. rewrite jobs_of_serialised.
    cbn [is_None fst]. rewrite first_or_None_head.
    unfold Engine.selected. fold ready. by destruct ready.
Qed.

Lemma count_zero_asks_for_one_witness :
  (Queue.pop demo_queue VNone demo_put).1 =
    Ok (OJob (Engine.received
                ("0"%string, Engine.lease "worker-1" 260%float demo_record)))
  /\ (Queue.pop demo_queue (VInt 0) demo_put).1 =
       Ok (OJobs [Engine.received
                    ("0"%string,
                     Engine.lease "worker-1" 260%float demo_record)])
  /\ (Queue.peek demo_queue VNone demo_put).1 =
       Ok (OJob (Engine.received ("0"%string, demo_record)))
  /\ (Queue.pop demo_queue VNone demo_world).1 = Ok (OVal VNone).
Proof.
  destruct count_zero_asks_for_one as [Hany _].
  destruct (Hany _ _ demo_queue VNone demo_put)
    as (_ & _ & _ & _ & Hpop & Hpeek).
  destruct (Hany _ _ demo_queue (VInt 0) demo_put)
    as (_ & _ & _ & _ & Hzero & _).
  destruct (Hany _ _ demo_queue VNone demo_world)
    as (_ & _ & _ & _ & Hnone & _).
  split.
  - apply (Hpop [Engine.serialise
                   ("0"%string,
                    Engine.lease "worker-1" 260%float demo_record)]
                [Engine.received
                   ("0"%string,
                    Engine.lease "worker-1" 260%float demo_record)]).
    + vm_compute. reflexivity.
    + repeat constructor.
  - split.
    + apply (Hzero [Engine.serialise
                      ("0"%string,
                       Engine.lease "worker-1" 260%float demo_record)]
                   [Engine.received
                      ("0"%string,
                       Engine.lease "worker-1" 260%float demo_record)]).
      * vm_compute. reflexivity.
      * repeat constructor.
    + split.
      * apply (Hpeek [Engine.serialise ("0"%string, demo_record)]
                     [Engine.received ("0"%string, demo_record)]).
        -- vm_compute. reflexivity.
        -- repeat constructor.
      * apply (Hnone [] []); [vm_compute; reflexivity|constructor].
Defined.
